(** * Traffic-light fuzzy controller: embedding and verification

    Shallow embedding of [TrafficLightControlSystem.py] and [Animation.py].

    Numbers.  The Python code computes with floats; the embedding computes
    with exact rationals ([Q]), kept in lowest terms ([Qred]) wherever the
    program stores a value, so that a stored number has one representation,
    as a float has.  Rounding errors of float arithmetic are not modelled.

    Library calls.  The program delegates membership functions, rule
    evaluation and defuzzification to scikit-fuzzy (0.4.2) and numpy.  The
    modules [Np], [Fuzz] and [Ctrl] give the meaning of the calls the program
    makes, following the library functions of the same names. *)

From Stdlib Require Import String.
From Stdlib Require Import QArith Qround Qminmax Qreduction Qcanon Lqa.
From Stdlib Require Import ZArith Lia List Bool.
Import ListNotations.

Local Open Scope Q_scope.

(** ** Exceptions *)

Inductive error : Type :=
| ValueError (msg : string)
| AssertionError (msg : string)
| KeyError (key : string).

Inductive result (A : Type) : Type :=
| Ok (a : A)
| Raise (e : error).

Arguments Ok {A} a.
Arguments Raise {A} e.

Definition bind {A B : Type} (r : result A) (k : A -> result B) : result B :=
  match r with
  | Ok a => k a
  | Raise e => Raise e
  end.

Notation "x <- r ;; k" := (bind r (fun x => k))
  (at level 61, r at next level, right associativity).

Fixpoint mapM {A B : Type} (f : A -> result B) (l : list A) : result (list B) :=
  match l with
  | [] => Ok []
  | a :: l' => b <- f a ;; bs <- mapM f l' ;; Ok (b :: bs)
  end.

(** ** Comparisons on rationals, as booleans *)

Definition Qltb (a b : Q) : bool := negb (Qle_bool b a).
Definition Qeqb (a b : Q) : bool := Qeq_bool a b.

(** ** numpy *)

Module Np.

(** [np.arange(start, stop, step)]: [ceil((stop - start) / step)] values
    [start + i * step]. *)
Definition arange (start stop step : Q) : list Q :=
  let n := Z.to_nat (Qceiling ((stop - start) / step)) in
  map (fun i => Qred (start + inject_Z (Z.of_nat i) * step)) (seq 0 n).

Definition fmin (a b : Q) : Q := if Qle_bool a b then a else b.
Definition fmax (a b : Q) : Q := if Qle_bool a b then b else a.

(** [ndarray.min()] and [ndarray.max()] of a non-empty array. *)
Definition amin (l : list Q) : Q :=
  match l with
  | [] => 0
  | x :: l' => fold_left fmin l' x
  end.

Definition amax (l : list Q) : Q :=
  match l with
  | [] => 0
  | x :: l' => fold_left fmax l' x
  end.

(** Number of leading sample points that are [<= x]: for an increasing
    [xp] and [xp[0] <= x], the index [j] with [xp[j] <= x < xp[j+1]] that
    [np.interp] searches for is [search x xp - 1]. *)
Fixpoint search (x : Q) (xp : list Q) : nat :=
  match xp with
  | [] => O
  | p :: xp' => if Qle_bool p x then S (search x xp') else O
  end.

(** [np.interp(x, xp, fp, left, right)]. *)
Definition interp (x : Q) (xp fp : list Q) (left right : Q) : Q :=
  if Qltb x (hd 0 xp) then left
  else if Qltb (last xp 0) x then right
  else
    let j := pred (search x xp) in
    if Nat.eqb (S j) (length xp) then nth j fp 0
    else
      let slope := (nth (S j) fp 0 - nth j fp 0) / (nth (S j) xp 0 - nth j xp 0) in
      Qred (slope * (x - nth j xp 0) + nth j fp 0).

(** [np.linspace(start, stop, num)], [num >= 2]. *)
Definition linspace (start stop : Q) (num : nat) : list Q :=
  let step := (stop - start) / inject_Z (Z.of_nat (num - 1)) in
  map (fun i => Qred (start + inject_Z (Z.of_nat i) * step)) (seq 0 num).

(** Insertion of a value in an increasing list without repetition. *)
Fixpoint insert_unique (x : Q) (l : list Q) : list Q :=
  match l with
  | [] => [x]
  | y :: l' =>
      if Qltb x y then x :: l
      else if Qeqb x y then l
      else y :: insert_unique x l'
  end.

(** [np.unique(ar)]: the sorted values of [ar], each once. *)
Definition unique (ar : list Q) : list Q := fold_right insert_unique [] ar.

(** [np.union1d(a, b) = unique(concatenate((a, b)))]. *)
Definition union1d (a b : list Q) : list Q := unique (a ++ b).

Definition sum (l : list Q) : Q := fold_left Qplus l 0.

End Np.

(** ** skfuzzy: membership functions and defuzzification *)

Module Fuzz.

(** [trimf] at one point of the universe.  The library fills the left
    side, then the right side, then the peak; the last assignment wins. *)
Definition trimf_at (a b c x : Q) : Q :=
  if Qeqb x b then 1
  else if negb (Qeqb b c) && Qltb b x && Qltb x c then Qred ((c - x) / (c - b))
  else if negb (Qeqb a b) && Qltb a x && Qltb x b then Qred ((x - a) / (b - a))
  else 0.

(** [fuzz.trimf(x, abc)]; the library asserts [a <= b <= c]. *)
Definition trimf (x : list Q) (abc : Q * Q * Q) : result (list Q) :=
  let '(a, b, c) := abc in
  if Qle_bool a b && Qle_bool b c then Ok (map (trimf_at a b c) x)
  else Raise (AssertionError "abc requires the three elements a <= b <= c.").

(** [trapmf] at one point: starts from 1, then overwrites [x <= b] with
    the rising edge, [x >= c] with the falling edge, [x < a] and [x > d]
    with 0, in that order. *)
Definition trapmf_at (a b c d x : Q) : Q :=
  if Qltb d x then 0
  else if Qltb x a then 0
  else if Qle_bool c x then trimf_at c c d x
  else if Qle_bool x b then trimf_at a b b x
  else 1.

(** [fuzz.trapmf(x, abcd)]; the library asserts [a <= b <= c <= d]. *)
Definition trapmf (x : list Q) (abcd : Q * Q * Q * Q) : result (list Q) :=
  let '(a, b, c, d) := abcd in
  if Qle_bool a b && Qle_bool b c && Qle_bool c d
  then Ok (map (trapmf_at a b c d) x)
  else Raise (AssertionError "abcd requires the four elements a <= b <= c <= d.").

(** [fuzz.interp_membership(x, xmf, xx)], with the default
    [zero_outside_x=True]. *)
Definition interp_membership (x xmf : list Q) (xx : Q) : Q :=
  Np.interp xx x xmf 0 0.

(** [_interp_universe_fast(x, xmf, y)]: the points where the sampled
    membership function crosses the level [y]. *)
Definition above (y v : Q) : bool :=
  if Qeqb y 0 then Qltb y v else Qle_bool y v.

Fixpoint crossings (y : Q) (x xmf : list Q) : list Q :=
  match x, xmf with
  | x0 :: ((x1 :: _) as x'), m0 :: ((m1 :: _) as xmf') =>
      if Bool.eqb (above y m0) (above y m1) then crossings y x' xmf'
      else Qred (x0 + (y - m0) * (x1 - x0) / (m1 - m0)) :: crossings y x' xmf'
  | _, _ => []
  end.

Definition _interp_universe_fast (x xmf : list Q) (y : Q) : list Q :=
  crossings y x xmf.

(** One step of the loop of [centroid]: the pair (moment, area) of the
    piece between two consecutive points, or nothing when the piece has no
    area. *)
Definition piece (x1 y1 x2 y2 : Q) : option (Q * Q) :=
  if (Qeqb y1 y2 && Qeqb y2 0) || Qeqb x1 x2 then None
  else if Qeqb y1 y2 then
    Some ((1 # 2) * (x1 + x2), (x2 - x1) * y1)
  else if Qeqb y1 0 && negb (Qeqb y2 0) then
    Some ((2 # 3) * (x2 - x1) + x1, (1 # 2) * (x2 - x1) * y2)
  else if Qeqb y2 0 && negb (Qeqb y1 0) then
    Some ((1 # 3) * (x2 - x1) + x1, (1 # 2) * (x2 - x1) * y1)
  else
    Some (((2 # 3) * (x2 - x1) * (y2 + (1 # 2) * y1)) / (y1 + y2) + x1,
          (1 # 2) * (x2 - x1) * (y1 + y2)).

(** The two accumulators of the loop: [sum_moment_area], [sum_area]. *)
Fixpoint centroid_loop (x mfx : list Q) (acc : Q * Q) : Q * Q :=
  match x, mfx with
  | x1 :: ((x2 :: _) as x'), y1 :: ((y2 :: _) as mfx') =>
      let acc' :=
        match piece x1 y1 x2 y2 with
        | Some (moment, area) =>
            (Qred (fst acc + moment * area), Qred (snd acc + area))
        | None => acc
        end in
      centroid_loop x' mfx' acc'
  | _, _ => acc
  end.

(** [np.finfo(float).eps]. *)
Definition eps : Q := 1 # (2 ^ 52).

(** [centroid(x, mfx)]. *)
Definition centroid (x mfx : list Q) : Q :=
  match x, mfx with
  | [x0], [m0] => Qred (x0 * m0 / Np.fmax m0 eps)
  | _, _ =>
      let '(sum_moment_area, sum_area) := centroid_loop x mfx (0, 0) in
      Qred (sum_moment_area / Np.fmax sum_area eps)
  end.

(** [defuzz(x, mfx, 'centroid')]: asserts that the memberships do not sum
    to zero, then takes the centroid. *)
Definition defuzz (x mfx : list Q) : result Q :=
  if Nat.eqb (length x) (length mfx) then
    if Qeqb (Np.sum mfx) 0
    then Raise (AssertionError "Total area is zero in defuzzification!")
    else Ok (centroid x mfx)
  else Raise (AssertionError "Length of x and fuzzy membership function must be identical.").

End Fuzz.

(** ** skfuzzy.control: variables, terms, rules, simulation *)

Module Ctrl.

(** [Antecedent(universe, label)] and [Consequent(universe, label)]:
    a universe and an ordered dictionary of named membership vectors. *)
Record FuzzyVariable : Type := {
  universe : list Q;
  label : string;
  terms : list (string * list Q)
}.

Definition Antecedent (universe : list Q) (label : string) : FuzzyVariable :=
  {| universe := universe; label := label; terms := [] |}.

Definition Consequent (universe : list Q) (label : string) : FuzzyVariable :=
  {| universe := universe; label := label; terms := [] |}.

(** A [Term]: a membership vector that knows its variable. *)
Record Term : Type := {
  parent : FuzzyVariable;
  term_label : string;
  mf : list Q
}.

Fixpoint lookup {A : Type} (key : string) (d : list (string * A)) : option A :=
  match d with
  | [] => None
  | (k, v) :: d' => if String.eqb k key then Some v else lookup key d'
  end.

(** Dictionary assignment: replaces the value of an existing key in
    place, appends a new key at the end. *)
Fixpoint assign {A : Type} (key : string) (v : A) (d : list (string * A))
  : list (string * A) :=
  match d with
  | [] => [(key, v)]
  | (k, w) :: d' =>
      if String.eqb k key then (k, v) :: d' else (k, w) :: assign key v d'
  end.

(** [variable[key] = item]: the vector must have the length of the
    universe and stay within [0, 1] (with the library's tolerance). *)
Definition tolerance : Q := 1 # 1000000.

Definition setitem (var : FuzzyVariable) (key : string) (item : list Q)
  : result FuzzyVariable :=
  if negb (Nat.eqb (length item) (length (universe var))) then
    Raise (ValueError "New membership function must be equivalent in length to the universe variable.")
  else if Qltb (1 + tolerance) (Np.amax item) || Qltb (Np.amin item) (0 - tolerance) then
    Raise (ValueError "Membership function contains values out of range. Allowed range is [0, 1].")
  else
    Ok {| universe := universe var; label := label var;
          terms := assign key item (terms var) |}.

(** [variable[key]]. *)
Definition getitem (var : FuzzyVariable) (key : string) : result Term :=
  match lookup key (terms var) with
  | Some m => Ok {| parent := var; term_label := key; mf := m |}
  | None => Raise (ValueError "Membership function does not exist.")
  end.

(** [variable.automf(names=names)]: triangles centred on [len(names)]
    evenly spaced points between the least and the greatest sample, each
    reaching the neighbouring centres; earlier terms are discarded. *)
Definition automf (var : FuzzyVariable) (names : list string)
  : result FuzzyVariable :=
  let number := length names in
  let lo := Np.amin (universe var) in
  let hi := Np.amax (universe var) in
  let universe_range := hi - lo in
  let width := universe_range / ((inject_Z (Z.of_nat number) - 1) / 2) in
  let centers := Np.linspace lo hi number in
  let abcs := map (fun c => (Qred (c - width / 2), c, Qred (c + width / 2))) centers in
  fold_left
    (fun acc (name_abc : string * (Q * Q * Q)) =>
       v <- acc ;;
       m <- Fuzz.trimf (universe v) (snd name_abc) ;;
       setitem v (fst name_abc) m)
    (combine names abcs)
    (Ok {| universe := universe var; label := label var; terms := [] |}).

(** The antecedent of a rule: terms combined with [&] and [|]. *)
Inductive TermAggregate : Type :=
| Leaf (t : Term)
| And (a b : TermAggregate)
| Or (a b : TermAggregate).

(** [Rule(antecedent, consequent)], with the default weight 1, the
    default [and_func=np.fmin] and [or_func=np.fmax]. *)
Record Rule : Type := {
  antecedent : TermAggregate;
  consequent : Term
}.

(** The labels of the variables a rule base reads, in order of first
    appearance. *)
Fixpoint leaves (e : TermAggregate) : list Term :=
  match e with
  | Leaf t => [t]
  | And a b => leaves a ++ leaves b
  | Or a b => leaves a ++ leaves b
  end.

Definition mem (s : string) (l : list string) : bool :=
  existsb (String.eqb s) l.

Fixpoint nodup_vars (l : list FuzzyVariable) (seen : list string)
  : list FuzzyVariable :=
  match l with
  | [] => []
  | v :: l' =>
      if mem (label v) seen then nodup_vars l' seen
      else v :: nodup_vars l' (label v :: seen)
  end.

Definition antecedents (rules : list Rule) : list FuzzyVariable :=
  nodup_vars (flat_map (fun r => map parent (leaves (antecedent r))) rules) [].

(** The consequent variables of a rule base, each once. *)
Fixpoint consequents_of (rules : list Rule) (seen : list string)
  : list FuzzyVariable :=
  match rules with
  | [] => []
  | r :: rules' =>
      let v := parent (consequent r) in
      if mem (label v) seen then consequents_of rules' seen
      else v :: consequents_of rules' (label v :: seen)
  end.

Definition consequents (rules : list Rule) : list FuzzyVariable :=
  consequents_of rules [].

(** *** One run of the rule base on given inputs *)

(** Fuzzification and aggregation: a leaf is the interpolated membership
    of the input of its variable; [&] is [fmin], [|] is [fmax]. *)
Fixpoint firing (input : list (string * option Q)) (e : TermAggregate) : result Q :=
  match e with
  | Leaf t =>
      match lookup (label (parent t)) input with
      | Some (Some value) =>
          Ok (Fuzz.interp_membership (universe (parent t)) (mf t) value)
      | _ => Raise (ValueError "All antecedents must have input values!")
      end
  | And a b => x <- firing input a ;; y <- firing input b ;; Ok (Np.fmin x y)
  | Or a b => x <- firing input a ;; y <- firing input b ;; Ok (Np.fmax x y)
  end.

(** Membership values of consequent terms, keyed by variable label and
    term label. *)
Definition key_of (t : Term) : string * string := (label (parent t), term_label t).

Definition key_eqb (k1 k2 : string * string) : bool :=
  String.eqb (fst k1) (fst k2) && String.eqb (snd k1) (snd k2).

Fixpoint cut_of (k : string * string) (mv : list (string * string * Q)) : option Q :=
  match mv with
  | [] => None
  | (k', v) :: mv' => if key_eqb k' k then Some v else cut_of k mv'
  end.

(** Accumulation: the first activation of a term is stored, later ones
    are joined with [fmax]. *)
Fixpoint accumulate (k : string * string) (value : Q) (mv : list (string * string * Q))
  : list (string * string * Q) :=
  match mv with
  | [] => [(k, value)]
  | (k', v) :: mv' =>
      if key_eqb k' k then (k', Np.fmax value v) :: mv'
      else (k', v) :: accumulate k value mv'
  end.

(** [compute_rule]: firing strength, activation (weight 1), accumulation. *)
Definition compute_rule (input : list (string * option Q)) (mv : list (string * string * Q))
  (rule : Rule) : result (list (string * string * Q)) :=
  s <- firing input (antecedent rule) ;;
  Ok (accumulate (key_of (consequent rule)) (Qred (s * 1)) mv).

Fixpoint compute_rules (input : list (string * option Q)) (rules : list Rule)
  (mv : list (string * string * Q)) : result (list (string * string * Q)) :=
  match rules with
  | [] => Ok mv
  | r :: rules' => mv' <- compute_rule input mv r ;; compute_rules input rules' mv'
  end.

(** [CrispValueCalculator.find_memberships]: the terms of the variable
    that received a membership value, with their cuts. *)
Fixpoint cut_terms (var : FuzzyVariable) (ts : list (string * list Q))
  (mv : list (string * string * Q)) : list (list Q * Q) :=
  match ts with
  | [] => []
  | (name, m) :: ts' =>
      match cut_of (label var, name) mv with
      | Some c => (m, c) :: cut_terms var ts' mv
      | None => cut_terms var ts' mv
      end
  end.

(** The aggregated membership at one point of the upsampled universe:
    the greatest clipped term, starting from zero. *)
Definition output_at (u : list Q) (cuts : list (list Q * Q)) (xx : Q) : Q :=
  fold_left
    (fun acc (mc : list Q * Q) =>
       Np.fmax acc (Np.fmin (snd mc) (Fuzz.interp_membership u (fst mc) xx)))
    cuts 0.

Definition new_universe (u : list Q) (cuts : list (list Q * Q)) : list Q :=
  Np.union1d u
    (flat_map (fun mc : list Q * Q => Fuzz._interp_universe_fast u (fst mc) (snd mc)) cuts).

(** [CrispValueCalculator.defuzz]. *)
Definition defuzz (var : FuzzyVariable) (mv : list (string * string * Q)) : result Q :=
  let cuts := cut_terms var (terms var) mv in
  let ups_universe := new_universe (universe var) cuts in
  let output_mf := map (output_at (universe var) cuts) ups_universe in
  match cuts with
  | [] => Raise (ValueError "No terms have memberships.")
  | _ =>
      match Fuzz.defuzz ups_universe output_mf with
      | Ok v => Ok v
      | Raise (AssertionError _) => Raise (ValueError "Crisp output cannot be calculated.")
      | Raise e => Raise e
      end
  end.

(** The body of [ControlSystemSimulation.compute] for inputs that were
    not computed before: every rule, then every consequent. *)
Definition run_rules (rules : list Rule) (input : list (string * option Q))
  : result (list (string * Q)) :=
  mv <- compute_rules input rules [] ;;
  mapM (fun c => v <- defuzz c mv ;; Ok (label c, v)) (consequents rules).

(** *** The simulation object *)

(** [ControlSystemSimulation(control)], with the defaults
    [clip_to_bounds=True], [cache=True], [flush_after_run=1000].  The
    library files what it computed under an identifier made of the current
    inputs; the inputs themselves stand for it here. *)
Record ControlSystemSimulation : Type := {
  ctrl : list Rule;
  input : list (string * option Q);
  output : list (string * Q);
  calculated : list (list (string * option Q) * list (string * Q));
  run : nat
}.

Definition flush_after_run : nat := 1000.

Definition no_inputs (rules : list Rule) : list (string * option Q) :=
  map (fun v => (label v, None)) (antecedents rules).

Definition new_simulation (rules : list Rule) : ControlSystemSimulation :=
  {| ctrl := rules; input := no_inputs rules; output := [];
     calculated := []; run := 0 |}.

(** [simulation.input[key] = value]: the key must name an antecedent of
    the rule base; the value is clipped to the bounds of its universe. *)
Definition set_input (sim : ControlSystemSimulation) (key : string) (value : Q)
  : result ControlSystemSimulation :=
  match find (fun v => String.eqb (label v) key) (antecedents (ctrl sim)) with
  | None => Raise (ValueError "Unexpected input")
  | Some var =>
      let value := Np.fmin value (Np.amax (universe var)) in
      let value := Np.fmax value (Np.amin (universe var)) in
      Ok {| ctrl := ctrl sim;
            input := assign key (Some (Qred value)) (input sim);
            output := output sim;
            calculated := calculated sim;
            run := run sim |}
  end.

Definition Q_eq_dec (a b : Q) : {a = b} + {a <> b}.
Proof. decide equality; [apply Pos.eq_dec | apply Z.eq_dec]. Defined.

Definition input_eq_dec (a b : list (string * option Q)) : {a = b} + {a <> b}.
Proof.
  repeat decide equality; try apply Pos.eq_dec; try apply Z.eq_dec.
Defined.

Fixpoint find_calculated (uid : list (string * option Q))
  (c : list (list (string * option Q) * list (string * Q)))
  : option (list (string * Q)) :=
  match c with
  | [] => None
  | (uid', out) :: c' =>
      if input_eq_dec uid' uid then Some out else find_calculated uid c'
  end.

Definition store_outputs (out : list (string * Q)) (d : list (string * Q))
  : list (string * Q) :=
  fold_left (fun d kv => assign (fst kv) (snd kv) d) out d.

(** [_reset_simulation]: forgets what was computed. *)
Definition _reset_simulation (sim : ControlSystemSimulation)
  : ControlSystemSimulation :=
  {| ctrl := ctrl sim; input := no_inputs (ctrl sim); output := output sim;
     calculated := []; run := 0 |}.

(** [simulation.compute()]: a known identifier is answered from what was
    stored for it; otherwise the rules are run, the result is stored, and
    every [flush_after_run] runs the store is emptied. *)
Definition compute (sim : ControlSystemSimulation) : result ControlSystemSimulation :=
  match find_calculated (input sim) (calculated sim) with
  | Some out =>
      Ok {| ctrl := ctrl sim; input := input sim;
            output := store_outputs out (output sim);
            calculated := calculated sim; run := run sim |}
  | None =>
      out <- run_rules (ctrl sim) (input sim) ;;
      let sim' :=
        {| ctrl := ctrl sim; input := input sim;
           output := store_outputs out (output sim);
           calculated := (input sim, out) :: calculated sim;
           run := S (run sim) |} in
      Ok (if Nat.eqb (Nat.modulo (run sim') flush_after_run) 0
          then _reset_simulation sim' else sim')
  end.

(** [simulation.output[key]]. *)
Definition get_output (sim : ControlSystemSimulation) (key : string) : result Q :=
  match lookup key (output sim) with
  | Some v => Ok v
  | None => Raise (KeyError key)
  end.

End Ctrl.

(** * TrafficLightControlSystem.py *)

Import Ctrl.

Definition LEVELS : list string := ["low"; "medium"; "high"]%string.

Definition LIGHT_LEVELS : list string :=
  ["extremely low"; "very low"; "low"; "medium"; "high"; "very high";
   "extremely high"]%string.

Definition TIME_RANGE : list Z := [0; 24]%Z.
Definition CARS_RANGE : list Z := [0; 40]%Z.
Definition AIR_RANGE : list Z := [0; 100]%Z.
Definition EMERGENCY_RANGE : list Q := [0; 11 # 10].
Definition LIGHT_RANGE : list Z := [0; 22]%Z.

(** [create_automf(ent)]. *)
Definition create_automf (ent : FuzzyVariable) : result FuzzyVariable :=
  automf ent LEVELS.

(** The builtin [max] applied to unpacked values: the first of the greatest
    arguments. *)
Definition py_max (values : list Q) : Q :=
  match values with
  | [] => 0
  | v :: values' => fold_left (fun m w => if Qltb m w then w else m) values' v
  end.

(** [zip] applied to unpacked rows: the columns of equally long rows. *)
Fixpoint zip_star (levels : list (list Q)) : list (list Q) :=
  match levels with
  | [] => []
  | [row] => map (fun v => [v]) row
  | row :: levels' => map (fun p => fst p :: snd p) (combine row (zip_star levels'))
  end.

(** [combine_trapmf(ent, value_sets...)]. *)
Definition combine_trapmf (ent : FuzzyVariable) (value_sets : list (Q * Q * Q * Q))
  : result (list Q) :=
  levels <- mapM (Fuzz.trapmf (universe ent)) value_sets ;;
  Ok (map py_max (zip_star levels)).

(** [TrafficLightControlSystemSetup]. *)
Record TrafficLightControlSystemSetup : Type := {
  traffic_during_day : FuzzyVariable;
  cars_queuing : FuzzyVariable;
  air_transparency : FuzzyVariable;
  emergency : FuzzyVariable;
  light_duration : FuzzyVariable
}.

(** [r[0]] and [r[-1]] of a range. *)
Definition first (r : list Z) : Q := inject_Z (hd 0%Z r).
Definition final (r : list Z) : Q := inject_Z (last r 0%Z).

(** [TrafficLightControlSystemSetup.__init__]. *)
Definition Setup_init : result TrafficLightControlSystemSetup :=
  let traffic_during_day :=
    Antecedent (Np.arange (first TIME_RANGE) (final TIME_RANGE) (1 # 2)) "traffic_during_day" in
  let cars_queuing :=
    Antecedent (Np.arange (first CARS_RANGE) (final CARS_RANGE) 1) "cars_queuing" in
  let air_transparency :=
    Antecedent (Np.arange (first AIR_RANGE) (final AIR_RANGE) 1) "air_transparency" in
  let emergency :=
    Antecedent (Np.arange (hd 0 EMERGENCY_RANGE) (last EMERGENCY_RANGE 0) (1 # 10)) "emergency" in
  let light_duration :=
    Consequent (Np.arange (first LIGHT_RANGE) (final LIGHT_RANGE) 1) "light_duration" in
  m <- combine_trapmf traffic_during_day
         [(0, 0, 9 # 2, 11 # 2); (21, 22, 47 # 2, 47 # 2)] ;;
  traffic_during_day <- setitem traffic_during_day "low" m ;;
  m <- combine_trapmf traffic_during_day
         [(9 # 2, 11 # 2, 13 # 2, 15 # 2); (10, 11, 14, 15); (18, 19, 21, 22)] ;;
  traffic_during_day <- setitem traffic_during_day "medium" m ;;
  m <- combine_trapmf traffic_during_day
         [(13 # 2, 15 # 2, 10, 11); (14, 15, 18, 19)] ;;
  traffic_during_day <- setitem traffic_during_day "high" m ;;
  cars_queuing <- create_automf cars_queuing ;;
  air_transparency <- create_automf air_transparency ;;
  let n := length (universe emergency) in
  emergency <- setitem emergency "is" (repeat 0 (n - 2) ++ repeat 1 2) ;;
  emergency <- setitem emergency "is_not" (repeat 1 (n - 2) ++ repeat 0 2) ;;
  light_duration <- automf light_duration LIGHT_LEVELS ;;
  Ok {| traffic_during_day := traffic_during_day;
        cars_queuing := cars_queuing;
        air_transparency := air_transparency;
        emergency := emergency;
        light_duration := light_duration |}.

(** [list.index(value)] on a list that contains the value. *)
Fixpoint index (value : Q) (l : list Q) : nat :=
  match l with
  | [] => O
  | v :: l' => if Qeqb v value then O else S (index value l')
  end.

(** The membership vector of a term of a variable of a built setup. *)
Definition mf_of (var : FuzzyVariable) (key : string) : list Q :=
  match lookup key (terms var) with
  | Some m => m
  | None => []
  end.

(** The three degrees [assess_time] compares, in its order:
    high, medium, low. *)
Definition time_assessment (self : TrafficLightControlSystemSetup) (value : Q) : list Q :=
  let tdd := traffic_during_day self in
  [Fuzz.interp_membership (universe tdd) (mf_of tdd "high") value;
   Fuzz.interp_membership (universe tdd) (mf_of tdd "medium") value;
   Fuzz.interp_membership (universe tdd) (mf_of tdd "low") value].

(** [assess_time(value)]. *)
Definition assess_time (self : TrafficLightControlSystemSetup) (value : Q) : nat :=
  let ta := time_assessment self value in
  index (py_max ta) ta.

(** Python's [&] and [|] on terms, written [[&]] and [[|]]; both associate
    to the left and [&] binds tighter. *)
Declare Scope rule_scope.
Delimit Scope rule_scope with rule.
Notation "a [&] b" := (And a b) (at level 40, left associativity) : rule_scope.
Notation "a [|] b" := (Or a b) (at level 50, left associativity) : rule_scope.

(** [TrafficLightControlSystemRules._create_rules]. *)
Definition _create_rules (setup : TrafficLightControlSystemSetup) : result (list Rule) :=
  let term var key := t <- getitem var key ;; Ok (Leaf t) in
  t_low <- term (traffic_during_day setup) "low"%string ;;
  t_medium <- term (traffic_during_day setup) "medium"%string ;;
  t_high <- term (traffic_during_day setup) "high"%string ;;
  c_low <- term (cars_queuing setup) "low"%string ;;
  c_medium <- term (cars_queuing setup) "medium"%string ;;
  c_high <- term (cars_queuing setup) "high"%string ;;
  a_low <- term (air_transparency setup) "low"%string ;;
  a_medium <- term (air_transparency setup) "medium"%string ;;
  a_high <- term (air_transparency setup) "high"%string ;;
  e_is <- term (emergency setup) "is"%string ;;
  e_is_not <- term (emergency setup) "is_not"%string ;;
  l_extremely_low <- getitem (light_duration setup) "extremely low" ;;
  l_very_low <- getitem (light_duration setup) "very low" ;;
  l_low <- getitem (light_duration setup) "low" ;;
  l_medium <- getitem (light_duration setup) "medium" ;;
  l_high <- getitem (light_duration setup) "high" ;;
  l_very_high <- getitem (light_duration setup) "very high" ;;
  l_extremely_high <- getitem (light_duration setup) "extremely high" ;;
  let rule_1 :=
    {| antecedent := ((t_low [&] c_low [&] a_low) [|] e_is)%rule;
       consequent := l_extremely_low |} in
  let rule_2 :=
    {| antecedent := (((t_low [&] c_low [&] a_medium) [|]
                       (t_low [&] c_medium [&] a_low) [|]
                       (t_medium [&] c_low [&] a_low)) [&] e_is_not)%rule;
       consequent := l_very_low |} in
  let rule_3 :=
    {| antecedent := (((t_low [&] c_low [&] a_high) [|]
                       (t_high [&] c_low [&] a_low) [|]
                       (t_low [&] c_medium [&] a_medium) [|]
                       (t_medium [&] c_low [&] a_medium) [|]
                       (t_medium [&] c_medium [&] a_low)) [&] e_is_not)%rule;
       consequent := l_low |} in
  let rule_4 :=
    {| antecedent := (((t_low [&] c_high [&] a_low) [|]
                       (t_low [&] c_medium [&] a_high) [|]
                       (t_medium [&] c_low [&] a_high) [|]
                       (t_medium [&] c_medium [&] a_medium) [|]
                       (t_high [&] c_low [&] a_medium) [|]
                       (t_high [&] c_medium [&] a_low)) [&] e_is_not)%rule;
       consequent := l_medium |} in
  let rule_5 :=
    {| antecedent := (((t_low [&] c_high [&] a_medium) [|]
                       (t_medium [&] c_high [&] a_low) [|]
                       (t_medium [&] c_medium [&] a_high) [|]
                       (t_high [&] c_low [&] a_high) [|]
                       (t_high [&] c_medium [&] a_medium)) [&] e_is_not)%rule;
       consequent := l_high |} in
  let rule_6 :=
    {| antecedent := (((t_low [&] c_high [&] a_high) [|]
                       (t_medium [&] c_high [&] a_medium) [|]
                       (t_high [&] c_high [&] a_low) [|]
                       (t_high [&] c_medium [&] a_high)) [&] e_is_not)%rule;
       consequent := l_very_high |} in
  let rule_7 :=
    {| antecedent := (((t_medium [&] c_high [&] a_high) [|]
                       (t_high [&] c_high [&] a_medium) [|]
                       (t_high [&] c_high [&] a_high)) [&] e_is_not)%rule;
       consequent := l_extremely_high |} in
  Ok [rule_1; rule_2; rule_3; rule_4; rule_5; rule_6; rule_7].

(** [TrafficLightControlSystemRules.__init__]: its own setup, then the
    rules. *)
Definition Rules_init : result (list Rule) :=
  setup <- Setup_init ;; _create_rules setup.

(** [TrafficLightControlSystem]. *)
Record TrafficLightControlSystem : Type := {
  setup : TrafficLightControlSystemSetup;
  rules : list Rule;
  simulation : ControlSystemSimulation
}.

(** [TrafficLightControlSystem.__init__]. *)
Definition TrafficLightControlSystem_init : result TrafficLightControlSystem :=
  setup <- Setup_init ;;
  rules <- Rules_init ;;
  Ok {| setup := setup; rules := rules; simulation := new_simulation rules |}.

Definition with_simulation (self : TrafficLightControlSystem)
  (sim : ControlSystemSimulation) : TrafficLightControlSystem :=
  {| setup := setup self; rules := rules self; simulation := sim |}.

(** [perform_simulation(time_of_day, cars_queuing, air_transparency,
    emergency)]: the four assignments, [compute], the read of the output.
    The result is the returned value or the exception that left the method,
    with the object as the call leaves it. *)
Definition perform_simulation (self : TrafficLightControlSystem)
  (time_of_day cars_queuing air_transparency emergency : Q)
  : result Q * TrafficLightControlSystem :=
  match set_input (simulation self) "traffic_during_day" time_of_day with
  | Raise e => (Raise e, self)
  | Ok s1 =>
  match set_input s1 "cars_queuing" cars_queuing with
  | Raise e => (Raise e, with_simulation self s1)
  | Ok s2 =>
  match set_input s2 "air_transparency" air_transparency with
  | Raise e => (Raise e, with_simulation self s2)
  | Ok s3 =>
  match set_input s3 "emergency" emergency with
  | Raise e => (Raise e, with_simulation self s3)
  | Ok s4 =>
  match compute s4 with
  | Raise e => (Raise e, with_simulation self s4)
  | Ok s5 => (get_output s5 "light_duration", with_simulation self s5)
  end end end end end.

(** The objects the constructors build, evaluated once. *)
Definition the_setup : TrafficLightControlSystemSetup :=
  Eval vm_compute in
    match Setup_init with
    | Ok s => s
    | Raise _ =>
        let v := Antecedent [] "" in
        {| traffic_during_day := v; cars_queuing := v; air_transparency := v;
           emergency := v; light_duration := v |}
    end.

Definition the_rules : list Rule :=
  Eval vm_compute in match Rules_init with Ok r => r | Raise _ => [] end.

Definition tlcs0 : TrafficLightControlSystem :=
  {| setup := the_setup; rules := the_rules; simulation := new_simulation the_rules |}.

(** ** The random source

    The module [random] of Python, as a generator that is read at a
    position: the raw numbers stand for the state of the generator. *)

Module Random.

Record generator : Type := {
  raw : nat -> Z;
  pos : nat
}.

Definition advance (g : generator) : generator :=
  {| raw := raw g; pos := S (pos g) |}.

(** [random.randint(a, b)]: an integer [N] with [a <= N <= b]. *)
Definition randint (g : generator) (a b : Z) : Z * generator :=
  ((a + raw g (pos g) mod (b - a + 1))%Z, advance g).

(** [random.random()]: a float [k / 2^53] in [[0, 1)]. *)
Definition random (g : generator) : Q * generator :=
  (Qred (Qmake (raw g (pos g) mod 2 ^ 53) (2 ^ 53)), advance g).

End Random.

(** The builtin [round(x, 0)]: the nearest integer, a tie going to the even
    one. *)
Definition round_half_even (x : Q) : Z :=
  let f := Qfloor x in
  let r := x - inject_Z f in
  if Qltb r (1 # 2) then f
  else if Qltb (1 # 2) r then (f + 1)%Z
  else if Z.even f then f else (f + 1)%Z.

(** The builtin [round(x, 1)]. *)
Definition round1 (x : Q) : Q := Qred (inject_Z (round_half_even (x * 10)) / 10).

(** [ndarray.min()] and [ndarray.max()] of a range of integers. *)
Definition range_min (r : list Z) : Z := fold_left Z.min (tl r) (hd 0%Z r).
Definition range_max (r : list Z) : Z := fold_left Z.max (tl r) (hd 0%Z r).

(** ** RandomParameters *)

Module RandomParameters.

Record t : Type := {
  time_of_day : Q;
  cars_queuing_x : Z;
  cars_queuing_y : Z;
  air_transparency : Z;
  emergency : Q
}.

(** [RandomParameters.__init__]: five draws, in this order. *)
Definition init (g : Random.generator) : t * Random.generator :=
  let '(n, g) := Random.randint g (range_min TIME_RANGE) (range_max TIME_RANGE * 2) in
  let time_of_day := Qred (inject_Z n / 2) in
  let '(cars_queuing_x, g) := Random.randint g (range_min CARS_RANGE) (range_max CARS_RANGE) in
  let '(cars_queuing_y, g) := Random.randint g (range_min CARS_RANGE) (range_max CARS_RANGE) in
  let '(air_transparency, g) := Random.randint g (range_min AIR_RANGE) (range_max AIR_RANGE) in
  let '(r, g) := Random.random g in
  ({| time_of_day := time_of_day;
      cars_queuing_x := cars_queuing_x;
      cars_queuing_y := cars_queuing_y;
      air_transparency := air_transparency;
      emergency := round1 r |}, g).

(** [change_air_transparency]. *)
Definition change_air_transparency (self : t) (g : Random.generator)
  : t * Random.generator :=
  let '(n, g) := Random.randint g 0 100 in
  ({| time_of_day := time_of_day self;
      cars_queuing_x := cars_queuing_x self;
      cars_queuing_y := cars_queuing_y self;
      air_transparency := n;
      emergency := emergency self |}, g).

(** [change_emergency]. *)
Definition change_emergency (self : t) (g : Random.generator)
  : t * Random.generator :=
  let '(r, g) := Random.random g in
  ({| time_of_day := time_of_day self;
      cars_queuing_x := cars_queuing_x self;
      cars_queuing_y := cars_queuing_y self;
      air_transparency := air_transparency self;
      emergency := round1 r |}, g).

End RandomParameters.

(** * RoadJunction.py: what the driver reads and writes

    Of the figure only the width of the two road lines (the queue of each
    direction) and the colour of the two lights are kept. *)

Module RoadJunction.

Inductive colour : Type := white | lime | red.

Record t : Type := {
  x_linewidth : Z;
  y_linewidth : Z;
  x_scat : colour;
  y_scat : colour
}.

(** [RoadJunction.__init__]: both lines of width 1, both lights white. *)
Definition init : t :=
  {| x_linewidth := 1; y_linewidth := 1; x_scat := white; y_scat := white |}.

(** [switch_lights(switch_to_x)]. *)
Definition switch_lights (self : t) (switch_to_x : bool) : t :=
  if switch_to_x then
    {| x_linewidth := x_linewidth self; y_linewidth := y_linewidth self;
       x_scat := lime; y_scat := red |}
  else
    {| x_linewidth := x_linewidth self; y_linewidth := y_linewidth self;
       x_scat := red; y_scat := lime |}.

Definition set_x_linewidth (self : t) (w : Z) : t :=
  {| x_linewidth := w; y_linewidth := y_linewidth self;
     x_scat := x_scat self; y_scat := y_scat self |}.

Definition set_y_linewidth (self : t) (w : Z) : t :=
  {| x_linewidth := x_linewidth self; y_linewidth := w;
     x_scat := x_scat self; y_scat := y_scat self |}.

End RoadJunction.

(** * Animation.py *)

Module Animation.

Definition DECREASE_CARS_RATE : Z := 5.
Definition PARAMETERS_CHANGE_RATE : Z := 250.
Definition EMERGENCY_THRESHOLD : Q := 8 # 10.

(** The two road lines of the plot. *)
Inductive line : Type := x_plot | y_plot.

Record t : Type := {
  marker : Z;
  tlcs : TrafficLightControlSystem;
  parameters : RandomParameters.t;
  increase_cars_rate : Z;
  plot : RoadJunction.t;
  switch_x_y : bool;
  rng : Random.generator
}.

Definition get_linewidth (self : t) (l : line) : Z :=
  match l with
  | x_plot => RoadJunction.x_linewidth (plot self)
  | y_plot => RoadJunction.y_linewidth (plot self)
  end.

Definition set_linewidth (self : t) (l : line) (w : Z) : t :=
  {| marker := marker self; tlcs := tlcs self; parameters := parameters self;
     increase_cars_rate := increase_cars_rate self;
     plot := match l with
             | x_plot => RoadJunction.set_x_linewidth (plot self) w
             | y_plot => RoadJunction.set_y_linewidth (plot self) w
             end;
     switch_x_y := switch_x_y self; rng := rng self |}.

(** [Animation.__init__], for a control system that was built and a
    random source. *)
Definition init (system : TrafficLightControlSystem) (g : Random.generator) : t :=
  let '(parameters, g) := RandomParameters.init g in
  let rate :=
    ((Z.of_nat (assess_time (setup system) (RandomParameters.time_of_day parameters)) + 1) * 10)%Z in
  let plot := RoadJunction.init in
  let plot := RoadJunction.set_x_linewidth plot (RandomParameters.cars_queuing_x parameters) in
  let plot := RoadJunction.set_y_linewidth plot (RandomParameters.cars_queuing_y parameters) in
  {| marker := 0; tlcs := system; parameters := parameters;
     increase_cars_rate := rate; plot := plot; switch_x_y := true; rng := g |}.

(** [__adjust_car_number(plot, change)]. *)
Definition adjust_car_number (self : t) (l : line) (change : Z) : t :=
  let new_width := (get_linewidth self l + change)%Z in
  set_linewidth self l (Z.max new_width 0).

(** The call of [perform_simulation] the driver makes, with the queue it
    chooses; the control system keeps what the call did to it. *)
Definition simulate (self : t) (queue : Z) : result (Z * t) :=
  let p := parameters self in
  let '(r, system) :=
    perform_simulation (tlcs self)
      (RandomParameters.time_of_day p) (inject_Z queue)
      (inject_Z (RandomParameters.air_transparency p))
      (RandomParameters.emergency p) in
  d <- r ;;
  Ok (round_half_even (d * 10),
      {| marker := marker self; tlcs := system; parameters := parameters self;
         increase_cars_rate := increase_cars_rate self; plot := plot self;
         switch_x_y := switch_x_y self; rng := rng self |}).

(** [__initialize_simulation]. *)
Definition initialize_simulation (self : t) : result t :=
  let plot := RoadJunction.switch_lights (plot self) (switch_x_y self) in
  let self :=
    {| marker := marker self; tlcs := tlcs self; parameters := parameters self;
       increase_cars_rate := increase_cars_rate self; plot := plot;
       switch_x_y := switch_x_y self; rng := rng self |} in
  r <- simulate self (RandomParameters.cars_queuing_x (parameters self)) ;;
  let '(outcome, self) := r in
  Ok {| marker := outcome; tlcs := tlcs self; parameters := parameters self;
        increase_cars_rate := increase_cars_rate self; plot := plot;
        switch_x_y := switch_x_y self; rng := rng self |}.

(** [__update_emergency], also the last step of a switch. *)
Definition update_emergency (self : t) : t :=
  let '(p, g) := RandomParameters.change_emergency (parameters self) (rng self) in
  {| marker := marker self; tlcs := tlcs self; parameters := p;
     increase_cars_rate := increase_cars_rate self; plot := plot self;
     switch_x_y := switch_x_y self; rng := g |}.

(** [__update_air_transparency]. *)
Definition update_air_transparency (self : t) : t :=
  let '(p, g) := RandomParameters.change_air_transparency (parameters self) (rng self) in
  {| marker := marker self; tlcs := tlcs self; parameters := p;
     increase_cars_rate := increase_cars_rate self; plot := plot self;
     switch_x_y := switch_x_y self; rng := g |}.

(** [__update_marker_and_switch]. *)
Definition update_marker_and_switch (self : t) : result t :=
  let new_linewidth :=
    if switch_x_y self then get_linewidth self y_plot
    else get_linewidth self x_plot in
  r <- simulate self new_linewidth ;;
  let '(outcome, self) := r in
  let switch := negb (switch_x_y self) in
  let self :=
    {| marker := (marker self + outcome)%Z; tlcs := tlcs self;
       parameters := parameters self;
       increase_cars_rate := increase_cars_rate self;
       plot := RoadJunction.switch_lights (plot self) switch;
       switch_x_y := switch; rng := rng self |} in
  Ok (if Qltb EMERGENCY_THRESHOLD (RandomParameters.emergency (parameters self))
      then update_emergency self else self).

(** The five steps of [_update(i)], each behind its test on the frame. *)
Definition step_initialize (i : Z) (self : t) : result t :=
  if (i =? 0)%Z then initialize_simulation self else Ok self.

Definition step_switch (i : Z) (self : t) : result t :=
  if (i =? marker self)%Z then update_marker_and_switch self else Ok self.

Definition step_increase (i : Z) (self : t) : t :=
  if (i mod increase_cars_rate self =? 0)%Z then
    adjust_car_number (adjust_car_number self x_plot 1) y_plot 1
  else self.

Definition step_decrease (i : Z) (self : t) : t :=
  if (i mod DECREASE_CARS_RATE =? 0)%Z then
    let plot_to_decrease := if switch_x_y self then x_plot else y_plot in
    adjust_car_number self plot_to_decrease (-1)
  else self.

Definition step_parameters (i : Z) (self : t) : t :=
  if (i mod PARAMETERS_CHANGE_RATE =? 0)%Z then
    update_emergency (update_air_transparency self)
  else self.

(** [_update(i)]; the legend it redraws at the end is not kept. *)
Definition _update (self : t) (i : Z) : result t :=
  self <- step_initialize i self ;;
  self <- step_switch i self ;;
  Ok (step_parameters i (step_decrease i (step_increase i self))).

End Animation.

(** * Vocabulary of the statements *)

(** The value the simulation object keeps for an input: clipped to the
    universe of the variable. *)
Definition clip (var : FuzzyVariable) (value : Q) : Q :=
  Qred (Np.fmax (Np.fmin value (Np.amax (universe var))) (Np.amin (universe var))).

(** The inputs the simulation object holds after the four assignments of
    [perform_simulation]. *)
Definition the_input (time_of_day cars air emerg : Q) : list (string * option Q) :=
  [("traffic_during_day"%string, Some (clip (traffic_during_day the_setup) time_of_day));
   ("cars_queuing"%string, Some (clip (cars_queuing the_setup) cars));
   ("air_transparency"%string, Some (clip (air_transparency the_setup) air));
   ("emergency"%string, Some (clip (emergency the_setup) emerg))].

(** What one run of the rule base of the program answers on such inputs. *)
Definition infer (time_of_day cars air emerg : Q) : result Q :=
  out <- run_rules the_rules (the_input time_of_day cars air emerg) ;;
  match lookup "light_duration" out with
  | Some v => Ok v
  | None => Raise (KeyError "light_duration")
  end.

(** A simulation object of the program's rule base in a state that calls
    of [perform_simulation] can leave it in: the inputs are those of the
    four antecedents, and whatever is stored was computed by the rules. *)
Definition wf_sim (sim : ControlSystemSimulation) : Prop :=
  ctrl sim = the_rules /\
  map fst (input sim) = map fst (no_inputs the_rules) /\
  forall uid out, In (uid, out) (calculated sim) -> run_rules the_rules uid = Ok out.

Definition wf (system : TrafficLightControlSystem) : Prop :=
  wf_sim (simulation system).

(** The control system after a sequence of calls of [perform_simulation]. *)
Fixpoint after_calls (system : TrafficLightControlSystem) (calls : list (Q * Q * Q * Q))
  : TrafficLightControlSystem :=
  match calls with
  | [] => system
  | (t, q, v, e) :: calls' =>
      after_calls (snd (perform_simulation system t q v e)) calls'
  end.

(** Evaluation of an antecedent under a valuation of its terms. *)
Fixpoint eval (val : Term -> Q) (e : TermAggregate) : Q :=
  match e with
  | Leaf t => val t
  | And a b => Np.fmin (eval val a) (eval val b)
  | Or a b => Np.fmax (eval val a) (eval val b)
  end.

(** The membership degree of a term for the stored inputs. *)
Definition degree (input : list (string * option Q)) (t : Term) : Q :=
  match lookup (label (parent t)) input with
  | Some (Some value) => Fuzz.interp_membership (universe (parent t)) (mf t) value
  | _ => 0
  end.

(** An antecedent under a yes/no valuation of its terms. *)
Fixpoint holds (b : Term -> bool) (e : TermAggregate) : bool :=
  match e with
  | Leaf t => b t
  | And x y => holds b x && holds b y
  | Or x y => holds b x || holds b y
  end.

Definition list_Q_eqb (l1 l2 : list Q) : bool :=
  if list_eq_dec Q_eq_dec l1 l2 then true else false.

Definition var_eqb (v1 v2 : FuzzyVariable) : bool :=
  String.eqb (label v1) (label v2) && list_Q_eqb (universe v1) (universe v2).

Definition term_eqb (t1 t2 : Term) : bool :=
  var_eqb (parent t1) (parent t2) && list_Q_eqb (mf t1) (mf t2).

(** The term of a variable of the setup with a given name and vector. *)
Definition term_of (var : FuzzyVariable) (nm : string * list Q) : Term :=
  {| parent := var; term_label := fst nm; mf := snd nm |}.

(** Yes for the chosen terms, no for the others. *)
Definition chosen (ts : list Term) (t : Term) : bool := existsb (term_eqb t) ts.

(** A number in lowest terms. *)
Definition canonical (x : Q) : Prop := Qred x = x.

Definition canonicalb (x : Q) : bool := if Q_eq_dec (Qred x) x then true else false.

Definition within (lo hi x : Q) : Prop := lo <= x /\ x <= hi.

Definition withinb (lo hi x : Q) : bool := Qle_bool lo x && Qle_bool x hi.

(** Every sample point of a variable has a term of positive degree, and no
    sample is negative or above one. *)
Definition coveredb (var : FuzzyVariable) : bool :=
  forallb
    (fun j => existsb (fun nm : string * list Q => Qltb 0 (nth j (snd nm) 0)) (terms var))
    (seq 0 (length (universe var)))
  && forallb (fun nm : string * list Q => forallb (withinb 0 1) (snd nm)) (terms var)
  && forallb
       (fun nm : string * list Q => Nat.eqb (length (snd nm)) (length (universe var)))
       (terms var).

(** The consequent of a rule is a term of the variable, and its vector is
    positive at some sample point of the universe. *)
Definition consequent_okb (var : FuzzyVariable) (r : Rule) : bool :=
  String.eqb (label (parent (consequent r))) (label var)
  && existsb
       (fun nm : string * list Q =>
          String.eqb (fst nm) (term_label (consequent r))
          && existsb
               (fun x => Qltb 0 (Fuzz.interp_membership (universe var) (snd nm) x))
               (universe var))
       (terms var).


(** The direction whose light is green. *)
Definition green (p : RoadJunction.t) : option Animation.line :=
  match RoadJunction.x_scat p, RoadJunction.y_scat p with
  | RoadJunction.lime, RoadJunction.red => Some Animation.x_plot
  | RoadJunction.red, RoadJunction.lime => Some Animation.y_plot
  | _, _ => None
  end.

Definition other (l : Animation.line) : Animation.line :=
  match l with
  | Animation.x_plot => Animation.y_plot
  | Animation.y_plot => Animation.x_plot
  end.

(** The direction the driver takes for the active one. *)
Definition active (a : Animation.t) : Animation.line :=
  if Animation.switch_x_y a then Animation.x_plot else Animation.y_plot.

(** The scenario of the specification: time of day 10, queues 30 and 5,
    visibility 60, no emergency; every later draw gives zero. *)
Definition scenario : Random.generator :=
  {| Random.raw := fun n => nth n [20; 30; 5; 60]%Z 0%Z; Random.pos := 0 |}.



(** The driver after the frames [0 .. n-1]. *)
Fixpoint frames (a : Animation.t) (i : Z) (n : nat) : result Animation.t :=
  match n with
  | O => Ok a
  | S n' => a' <- Animation._update a i ;; frames a' (i + 1)%Z n'
  end.

(** The activation a rule gives to its consequent: its firing strength
    times the weight 1. *)
Definition strength (input : list (string * option Q)) (r : Rule) : Q :=
  Qred (eval (degree input) (antecedent r) * 1).

(** The membership values after all rules accumulated theirs. *)
Definition accumulate_all (input : list (string * option Q)) (rules : list Rule)
  (mv : list (string * string * Q)) : list (string * string * Q) :=
  fold_left (fun mv r => accumulate (key_of (consequent r)) (strength input r) mv) rules mv.

(** Every term of every antecedent has an input. *)
Definition has_inputs (input : list (string * option Q)) (rules : list Rule) : Prop :=
  forall r t, In r rules -> In t (leaves (antecedent r)) ->
    exists v, lookup (label (parent t)) input = Some (Some v).

(** ** A cross-check of the library model

    The tipping controller of the scikit-fuzzy documentation: quality and
    service on 0..10 with three automatic levels, the tip on 0..25 with three
    triangles, three rules.  The documentation reports a tip of
    19.847607361963192 for a quality of 6.5 and a service of 9.8. *)

Module Tipping.

Definition names : list string := ["poor"; "average"; "good"]%string.

Definition rules : result (list Rule) :=
  quality <- automf (Antecedent (Np.arange 0 11 1) "quality") names ;;
  service <- automf (Antecedent (Np.arange 0 11 1) "service") names ;;
  let tip := Consequent (Np.arange 0 26 1) "tip" in
  m <- Fuzz.trimf (universe tip) (0, 0, 13) ;;
  tip <- setitem tip "low" m ;;
  m <- Fuzz.trimf (universe tip) (0, 13, 25) ;;
  tip <- setitem tip "medium" m ;;
  m <- Fuzz.trimf (universe tip) (13, 25, 25) ;;
  tip <- setitem tip "high" m ;;
  q_poor <- getitem quality "poor" ;;
  q_good <- getitem quality "good" ;;
  s_poor <- getitem service "poor" ;;
  s_average <- getitem service "average" ;;
  s_good <- getitem service "good" ;;
  t_low <- getitem tip "low" ;;
  t_medium <- getitem tip "medium" ;;
  t_high <- getitem tip "high" ;;
  Ok [{| antecedent := Or (Leaf q_poor) (Leaf s_poor); consequent := t_low |};
      {| antecedent := Leaf s_average; consequent := t_medium |};
      {| antecedent := Or (Leaf s_good) (Leaf q_good); consequent := t_high |}].

Definition tipping (quality service : Q) : result Q :=
  rs <- rules ;;
  sim <- set_input (new_simulation rs) "quality" quality ;;
  sim <- set_input sim "service" service ;;
  sim <- compute sim ;;
  get_output sim "tip".

End Tipping.

(** A strictly increasing list. *)
Fixpoint ascending (l : list Q) : Prop :=
  match l with
  | x :: ((y :: _) as l') => x < y /\ ascending l'
  | _ => True
  end.

(** The labels of the four antecedents. *)
Definition input_labels : list string :=
  ["traffic_during_day"; "cars_queuing"; "air_transparency"; "emergency"]%string.

(** A variable whose sample points are all covered, and whose least and
    greatest samples are the first and the last. *)
Definition regularb (var : FuzzyVariable) : bool :=
  coveredb var
  && negb (Nat.eqb (length (universe var)) 0)
  && Qeqb (Np.amin (universe var)) (hd 0 (universe var))
  && Qeqb (Np.amax (universe var)) (last (universe var) 0)
  && Qle_bool (Np.amin (universe var)) (Np.amax (universe var)).

(** A term of an antecedent with samples in [[0, 1]], over a universe that
    is not empty, of one of the four input variables. *)
Definition leaf_okb (t : Term) : bool :=
  forallb (withinb 0 1) (mf t)
  && negb (Nat.eqb (length (universe (parent t))) 0)
  && mem (label (parent t)) input_labels.

Definition rules_okb (var : FuzzyVariable) (rules : list Rule) : bool :=
  forallb
    (fun r => consequent_okb var r && forallb leaf_okb (leaves (antecedent r)))
    rules.

(** One term of each antecedent, in all possible ways. *)
Definition choices : list (list Term) :=
  flat_map (fun nt =>
  flat_map (fun nc =>
  flat_map (fun na =>
  map (fun ne =>
         [term_of (traffic_during_day the_setup) nt;
          term_of (cars_queuing the_setup) nc;
          term_of (air_transparency the_setup) na;
          term_of (emergency the_setup) ne])
    (terms (emergency the_setup)))
    (terms (air_transparency the_setup)))
    (terms (cars_queuing the_setup)))
    (terms (traffic_during_day the_setup)).

(** Whatever term of each antecedent is chosen, the antecedent of some
    rule holds when exactly the chosen terms are valued yes. *)
Definition all_choices_fire : bool :=
  forallb
    (fun ts => existsb (fun r => holds (chosen ts) (antecedent r)) the_rules)
    choices.

(** The two terms of the emergency variable. *)
Definition e_is : Term :=
  term_of (emergency the_setup) ("is"%string, mf_of (emergency the_setup) "is").

Definition e_is_not : Term :=
  term_of (emergency the_setup) ("is_not"%string, mf_of (emergency the_setup) "is_not").

(** What stands left of the last operator of an antecedent. *)
Definition left_of (e : TermAggregate) : TermAggregate :=
  match e with
  | And a _ => a
  | Or a _ => a
  | Leaf _ => e
  end.

(** The [k]-th rule of the program, from 0. *)
Definition rule (k : nat) : Rule :=
  nth k the_rules
    {| antecedent := Leaf e_is;
       consequent := {| parent := light_duration the_setup; term_label := ""; mf := [] |} |}.

(** The keys of the consequents of the rules and given activations,
    accumulated in order. *)
Definition accumulate_list (rules : list Rule) (strengths : list Q)
  (mv : list (string * string * Q)) : list (string * string * Q) :=
  fold_left
    (fun mv (ks : string * string * Q) => accumulate (fst ks) (snd ks) mv)
    (combine (map (fun r => key_of (consequent r)) rules) strengths) mv.

(** The activations when the emergency is certain: the first rule fully,
    the others not at all. *)
Definition emergency_strengths : list Q := [1; 0; 0; 0; 0; 0; 0].

(** The duration the rules answer under these activations. *)
Definition emergency_duration : Q := 91 # 75.

(** The degree of a duration in a level of the consequent. *)
Definition light_degree (level : string) (d : Q) : Q :=
  Fuzz.interp_membership (universe (light_duration the_setup))
    (mf_of (light_duration the_setup) level) d.

(** * Facts about the numbers *)

Lemma Qltb_lt (a b : Q) : Qltb a b = true <-> a < b.
Proof.
  unfold Qltb. rewrite negb_true_iff.
  split; intro H.
  - apply Qnot_le_lt. intro Hle. apply Qle_bool_iff in Hle. congruence.
  - destruct (Qle_bool b a) eqn:E; [|reflexivity].
    apply Qle_bool_iff in E. exfalso. apply (Qlt_not_le _ _ H E).
Qed.

Lemma Qltb_ge (a b : Q) : Qltb a b = false <-> b <= a.
Proof.
  unfold Qltb. rewrite negb_false_iff. apply Qle_bool_iff.
Qed.

Lemma Qle_bool_gt (a b : Q) : Qle_bool a b = false <-> b < a.
Proof.
  rewrite <- Qltb_lt. unfold Qltb. rewrite negb_true_iff. tauto.
Qed.

Lemma Qeqb_eq (a b : Q) : Qeqb a b = true <-> a == b.
Proof. apply Qeq_bool_iff. Qed.

Lemma Qeqb_neq (a b : Q) : Qeqb a b = false <-> ~ a == b.
Proof.
  unfold Qeqb. split; intro H.
  - intro E. apply Qeq_bool_iff in E. congruence.
  - destruct (Qeq_bool a b) eqn:E; [|reflexivity].
    apply Qeq_bool_iff in E. contradiction.
Qed.

(** Case analysis on the boolean comparisons, leaving facts for [lra]. *)
Ltac qcases :=
  repeat match goal with
  | |- context [Qle_bool ?a ?b] =>
      let E := fresh "E" in
      destruct (Qle_bool a b) eqn:E;
      [apply Qle_bool_iff in E | apply Qle_bool_gt in E]
  | |- context [Qltb ?a ?b] =>
      let E := fresh "E" in
      destruct (Qltb a b) eqn:E;
      [apply Qltb_lt in E | apply Qltb_ge in E]
  | |- context [Qeqb ?a ?b] =>
      let E := fresh "E" in
      destruct (Qeqb a b) eqn:E;
      [apply Qeqb_eq in E | apply Qeqb_neq in E]
  end.

Lemma fmin_spec (a b : Q) :
  (a <= b /\ Np.fmin a b = a) \/ (b < a /\ Np.fmin a b = b).
Proof. unfold Np.fmin. qcases; auto. Qed.

Lemma fmax_spec (a b : Q) :
  (a <= b /\ Np.fmax a b = b) \/ (b < a /\ Np.fmax a b = a).
Proof. unfold Np.fmax. qcases; auto. Qed.

Lemma fmax_ge_l (a b : Q) : a <= Np.fmax a b.
Proof. destruct (fmax_spec a b) as [[H ->]|[H ->]]; lra. Qed.

Lemma fmax_ge_r (a b : Q) : b <= Np.fmax a b.
Proof. destruct (fmax_spec a b) as [[H ->]|[H ->]]; lra. Qed.

Lemma canonical_Qred (x : Q) : canonical (Qred x).
Proof. apply Qred_involutive. Qed.

Lemma canonical_eq (x y : Q) : canonical x -> canonical y -> x == y -> x = y.
Proof.
  unfold canonical. intros Hx Hy E.
  rewrite <- Hx, <- Hy. apply Qred_complete, E.
Qed.

Lemma canonicalb_true (x : Q) : canonicalb x = true -> canonical x.
Proof. unfold canonicalb, canonical. destruct (Q_eq_dec (Qred x) x); congruence. Qed.

Lemma withinb_true (lo hi x : Q) : withinb lo hi x = true -> within lo hi x.
Proof.
  unfold withinb, within. rewrite andb_true_iff, !Qle_bool_iff. tauto.
Qed.

Lemma Qred_eq_of_Qeq (x : Q) (c : Q) : x == c -> Qred x = Qred c.
Proof. apply Qred_complete. Qed.

(** * Facts about [np.interp] *)

Lemma ratio_bounds (x x0 x1 : Q) :
  x0 <= x -> x < x1 -> 0 <= (x - x0) / (x1 - x0) /\ (x - x0) / (x1 - x0) < 1.
Proof.
  intros H0 H1. split.
  - apply Qle_shift_div_l; lra.
  - apply Qlt_shift_div_r; lra.
Qed.

Lemma convex_within (lo hi y0 y1 s : Q) :
  lo <= y0 <= hi -> lo <= y1 <= hi -> 0 <= s -> s <= 1 ->
  lo <= y0 + (y1 - y0) * s <= hi.
Proof. intros. split; nra. Qed.

Lemma convex_pos (y0 y1 s : Q) :
  0 < y0 -> 0 <= y1 -> 0 <= s -> s < 1 -> 0 < y0 + (y1 - y0) * s.
Proof. intros. nra. Qed.

Lemma search_le_length (x : Q) (xp : list Q) : (Np.search x xp <= length xp)%nat.
Proof.
  induction xp as [|p xp IH]; simpl; [lia|].
  destruct (Qle_bool p x); simpl; lia.
Qed.

Lemma search_le (x : Q) (xp : list Q) (i : nat) :
  (i < Np.search x xp)%nat -> nth i xp 0 <= x.
Proof.
  revert i. induction xp as [|p xp IH]; simpl; intros i Hi; [lia|].
  destruct (Qle_bool p x) eqn:E; [|lia].
  apply Qle_bool_iff in E.
  destruct i as [|i]; [exact E|]. apply IH. lia.
Qed.

Lemma search_gt (x : Q) (xp : list Q) :
  (Np.search x xp < length xp)%nat -> x < nth (Np.search x xp) xp 0.
Proof.
  induction xp as [|p xp IH]; simpl; intros H; [lia|].
  destruct (Qle_bool p x) eqn:E.
  - apply IH. lia.
  - apply Qle_bool_gt in E. exact E.
Qed.

Lemma search_pos (x : Q) (xp : list Q) :
  xp <> [] -> hd 0 xp <= x -> (1 <= Np.search x xp)%nat.
Proof.
  destruct xp as [|p xp]; [congruence|]. simpl. intros _ H.
  apply Qle_bool_iff in H. rewrite H. lia.
Qed.

(** The three ways [np.interp] answers. *)
Lemma interp_cases (x : Q) (xp fp : list Q) (left right : Q) :
  xp <> [] ->
  (x < hd 0 xp /\ Np.interp x xp fp left right = left) \/
  (last xp 0 < x /\ Np.interp x xp fp left right = right) \/
  (exists j : nat,
     j = pred (Np.search x xp) /\ (j < length xp)%nat /\ nth j xp 0 <= x /\
     ((S j = length xp /\ Np.interp x xp fp left right = nth j fp 0) \/
      ((S j < length xp)%nat /\ x < nth (S j) xp 0 /\
       Np.interp x xp fp left right ==
         nth j fp 0 +
         (nth (S j) fp 0 - nth j fp 0) * ((x - nth j xp 0) / (nth (S j) xp 0 - nth j xp 0))))).
Proof.
  intros Hne. unfold Np.interp.
  destruct (Qltb x (hd 0 xp)) eqn:E1.
  { left. apply Qltb_lt in E1. auto. }
  apply Qltb_ge in E1.
  destruct (Qltb (last xp 0) x) eqn:E2.
  { right. left. apply Qltb_lt in E2. auto. }
  right. right.
  pose proof (search_pos x xp Hne E1) as Hs.
  pose proof (search_le_length x xp) as Hl.
  exists (pred (Np.search x xp)).
  assert (Hj : S (pred (Np.search x xp)) = Np.search x xp) by lia.
  split; [reflexivity|]. split; [lia|].
  split; [apply search_le; lia|].
  destruct (Nat.eqb (S (pred (Np.search x xp))) (length xp)) eqn:E3.
  - apply Nat.eqb_eq in E3. left. auto.
  - apply Nat.eqb_neq in E3. right.
    split; [lia|]. rewrite Hj.
    assert (Hgt : x < nth (Np.search x xp) xp 0) by (apply search_gt; lia).
    split; [exact Hgt|].
    rewrite Qred_correct.
    assert (Hle : nth (pred (Np.search x xp)) xp 0 <= x) by (apply search_le; lia).
    field. lra.
Qed.

Lemma nth_within (lo hi : Q) (l : list Q) (i : nat) :
  lo <= 0 <= hi -> Forall (within lo hi) l -> within lo hi (nth i l 0).
Proof.
  intros H0 Hl. destruct (Nat.lt_ge_cases i (length l)) as [Hi|Hi].
  - rewrite Forall_forall in Hl. apply Hl, nth_In, Hi.
  - rewrite nth_overflow by exact Hi. exact H0.
Qed.

(** Interpolation stays between the bounds of the samples. *)
Lemma interp_membership_within (u m : list Q) (x : Q) :
  u <> [] -> Forall (within 0 1) m ->
  within 0 1 (Fuzz.interp_membership u m x).
Proof.
  intros Hne Hm. unfold Fuzz.interp_membership.
  assert (H01 : 0 <= 0 <= 1) by lra.
  destruct (interp_cases x u m 0 0 Hne) as [[_ ->]|[[_ ->]|(j & _ & _ & Hle & [[_ ->]|(_ & Hlt & Hi)])]].
  - unfold within; lra.
  - unfold within; lra.
  - apply nth_within; assumption.
  - pose proof (nth_within 0 1 m j H01 Hm) as Hj.
    pose proof (nth_within 0 1 m (S j) H01 Hm) as Hsj.
    destruct (ratio_bounds x _ _ Hle Hlt) as [Hr0 Hr1].
    unfold within in *. rewrite Hi.
    apply convex_within; lra.
Qed.

(** Interpolation is positive where the sample on the left is. *)
Lemma interp_membership_pos (u m : list Q) (x : Q) :
  u <> [] -> Forall (within 0 1) m -> hd 0 u <= x <= last u 0 ->
  0 < nth (pred (Np.search x u)) m 0 ->
  0 < Fuzz.interp_membership u m x.
Proof.
  intros Hne Hm Hx Hpos. unfold Fuzz.interp_membership.
  assert (H01 : 0 <= 0 <= 1) by lra.
  destruct (interp_cases x u m 0 0 Hne) as [[H _]|[[H _]|(j & -> & _ & Hle & [[_ ->]|(_ & Hlt & Hi)])]].
  - lra.
  - lra.
  - exact Hpos.
  - pose proof (nth_within 0 1 m (S (pred (Np.search x u))) H01 Hm) as Hsj.
    destruct (ratio_bounds x _ _ Hle Hlt) as [Hr0 Hr1].
    unfold within in *. rewrite Hi.
    apply convex_pos; lra.
Qed.

(** * Clipping and coverage *)

Lemma clip_within (var : FuzzyVariable) (x : Q) :
  Np.amin (universe var) <= Np.amax (universe var) ->
  within (Np.amin (universe var)) (Np.amax (universe var)) (clip var x).
Proof.
  intros H. unfold clip, within. rewrite !Qred_correct.
  destruct (fmin_spec x (Np.amax (universe var))) as [[H1 ->]|[H1 ->]];
    destruct (fmax_spec x (Np.amin (universe var))) as [[H2 E2]|[H2 E2]];
    destruct (fmax_spec (Np.amax (universe var)) (Np.amin (universe var))) as [[H3 E3]|[H3 E3]];
    rewrite ?E2, ?E3; lra.
Qed.

Lemma clip_canonical (var : FuzzyVariable) (x : Q) : canonical (clip var x).
Proof. apply canonical_Qred. Qed.

(** A value inside the bounds is kept, up to its representation. *)
Lemma clip_inside (var : FuzzyVariable) (x : Q) :
  within (Np.amin (universe var)) (Np.amax (universe var)) x ->
  clip var x = Qred x.
Proof.
  intros [H1 H2]. unfold clip. apply Qred_complete.
  destruct (fmin_spec x (Np.amax (universe var))) as [[H3 ->]|[H3 ->]];
    [|lra].
  destruct (fmax_spec x (Np.amin (universe var))) as [[H4 ->]|[H4 ->]]; lra.
Qed.

Lemma existsb_In {A : Type} (f : A -> bool) (l : list A) :
  existsb f l = true -> exists a, In a l /\ f a = true.
Proof. apply existsb_exists. Qed.

(** Where every sample point has a positive term, every point between the
    bounds has one. *)
Lemma covered_positive (var : FuzzyVariable) (x : Q) :
  coveredb var = true -> universe var <> [] ->
  hd 0 (universe var) <= x <= last (universe var) 0 ->
  exists nm, In nm (terms var) /\
             0 < Fuzz.interp_membership (universe var) (snd nm) x.
Proof.
  unfold coveredb. rewrite !andb_true_iff. intros [[Hc Hw] _] Hne Hx.
  rewrite forallb_forall in Hc. rewrite forallb_forall in Hw.
  pose proof (search_pos x (universe var) Hne (proj1 Hx)) as Hs.
  pose proof (search_le_length x (universe var)) as Hl.
  assert (Hj : In (pred (Np.search x (universe var))) (seq 0 (length (universe var)))).
  { apply in_seq. lia. }
  apply Hc in Hj. apply existsb_exists in Hj. destruct Hj as (nm & Hin & Hpos).
  exists nm. split; [exact Hin|].
  apply interp_membership_pos; auto.
  - apply Forall_forall. intros y Hy.
    apply withinb_true. specialize (Hw nm Hin).
    rewrite forallb_forall in Hw. apply Hw, Hy.
  - apply Qltb_lt, Hpos.
Qed.

Lemma covered_within (var : FuzzyVariable) (nm : string * list Q) :
  coveredb var = true -> In nm (terms var) -> Forall (within 0 1) (snd nm).
Proof.
  unfold coveredb. rewrite !andb_true_iff. intros [[_ Hw] _] Hin.
  rewrite forallb_forall in Hw. specialize (Hw nm Hin).
  rewrite forallb_forall in Hw.
  apply Forall_forall. intros y Hy. apply withinb_true, Hw, Hy.
Qed.

(** * Facts about antecedents *)

Lemma firing_eval (input : list (string * option Q)) (e : TermAggregate) :
  (forall t, In t (leaves e) ->
     exists v, lookup (label (parent t)) input = Some (Some v)) ->
  firing input e = Ok (eval (degree input) e).
Proof.
  induction e as [t|a IHa b IHb|a IHa b IHb]; simpl; intros H.
  - destruct (H t (or_introl eq_refl)) as [v Hv].
    unfold degree. rewrite Hv. reflexivity.
  - rewrite IHa, IHb; [reflexivity| |];
      intros t Ht; apply H, in_or_app; auto.
  - rewrite IHa, IHb; [reflexivity| |];
      intros t Ht; apply H, in_or_app; auto.
Qed.

Lemma eval_within (val : Term -> Q) (e : TermAggregate) :
  (forall t, In t (leaves e) -> within 0 1 (val t)) ->
  within 0 1 (eval val e).
Proof.
  induction e as [t|a IHa b IHb|a IHa b IHb]; simpl; intros H.
  - apply H. auto.
  - assert (Ha : within 0 1 (eval val a)) by (apply IHa; intros; apply H, in_or_app; auto).
    assert (Hb : within 0 1 (eval val b)) by (apply IHb; intros; apply H, in_or_app; auto).
    destruct (fmin_spec (eval val a) (eval val b)) as [[_ ->]|[_ ->]]; assumption.
  - assert (Ha : within 0 1 (eval val a)) by (apply IHa; intros; apply H, in_or_app; auto).
    assert (Hb : within 0 1 (eval val b)) by (apply IHb; intros; apply H, in_or_app; auto).
    destruct (fmax_spec (eval val a) (eval val b)) as [[_ ->]|[_ ->]]; assumption.
Qed.

Lemma eval_nonneg (val : Term -> Q) (e : TermAggregate) :
  (forall t, In t (leaves e) -> 0 <= val t) -> 0 <= eval val e.
Proof.
  induction e as [t|x IHx y IHy|x IHx y IHy]; simpl; intros W.
  - apply W; auto.
  - destruct (fmin_spec (eval val x) (eval val y)) as [[_ ->]|[_ ->]];
      [apply IHx|apply IHy]; intros; apply W, in_or_app; auto.
  - pose proof (fmax_ge_l (eval val x) (eval val y)).
    assert (0 <= eval val x) by (apply IHx; intros; apply W, in_or_app; auto).
    lra.
Qed.

(** An antecedent that holds under a yes/no valuation has a positive
    firing strength when the terms valued yes have a positive degree. *)
Lemma eval_pos (val : Term -> Q) (b : Term -> bool) (e : TermAggregate) :
  (forall t, In t (leaves e) -> 0 <= val t) ->
  (forall t, In t (leaves e) -> b t = true -> 0 < val t) ->
  holds b e = true -> 0 < eval val e.
Proof.
  induction e as [t|x IHx y IHy|x IHx y IHy]; simpl; intros H0 Hb Hh.
  - apply Hb; auto.
  - apply andb_true_iff in Hh. destruct Hh as [Hx Hy].
    assert (0 < eval val x)
      by (apply IHx; auto; intros; [apply H0|apply Hb]; auto; apply in_or_app; auto).
    assert (0 < eval val y)
      by (apply IHy; auto; intros; [apply H0|apply Hb]; auto; apply in_or_app; auto).
    destruct (fmin_spec (eval val x) (eval val y)) as [[_ ->]|[_ ->]]; assumption.
  - assert (Hx0 : 0 <= eval val x)
      by (apply eval_nonneg; intros; apply H0, in_or_app; auto).
    assert (Hy0 : 0 <= eval val y)
      by (apply eval_nonneg; intros; apply H0, in_or_app; auto).
    apply orb_true_iff in Hh.
    pose proof (fmax_ge_l (eval val x) (eval val y)).
    pose proof (fmax_ge_r (eval val x) (eval val y)).
    destruct Hh as [Hh|Hh].
    + assert (0 < eval val x)
        by (apply IHx; auto; intros; [apply H0|apply Hb]; auto; apply in_or_app; auto).
      lra.
    + assert (0 < eval val y)
        by (apply IHy; auto; intros; [apply H0|apply Hb]; auto; apply in_or_app; auto).
      lra.
Qed.

(** * Facts about the accumulation of the rules *)

Lemma key_eqb_refl (k : string * string) : key_eqb k k = true.
Proof. unfold key_eqb. rewrite !String.eqb_refl. reflexivity. Qed.

Lemma compute_rules_ok (input : list (string * option Q)) (rules : list Rule)
  (mv : list (string * string * Q)) :
  has_inputs input rules ->
  compute_rules input rules mv = Ok (accumulate_all input rules mv).
Proof.
  revert mv. induction rules as [|r rules IH]; intros mv H; [reflexivity|].
  simpl. unfold compute_rule.
  rewrite firing_eval by (intros t Ht; apply (H r t); simpl; auto).
  simpl. rewrite IH; [reflexivity|].
  intros r' t Hr Ht. apply (H r' t); simpl; auto.
Qed.

Lemma cut_of_accumulate_same (k : string * string) (v : Q)
  (mv : list (string * string * Q)) :
  exists c, cut_of k (accumulate k v mv) = Some c /\ v <= c.
Proof.
  induction mv as [|[k' w] mv IH]; simpl.
  - rewrite key_eqb_refl. exists v. split; [reflexivity|lra].
  - destruct (key_eqb k' k) eqn:E; simpl; rewrite E.
    + exists (Np.fmax v w). split; [reflexivity|apply fmax_ge_l].
    + exact IH.
Qed.

Lemma cut_of_accumulate_mono (k k2 : string * string) (v c : Q)
  (mv : list (string * string * Q)) :
  cut_of k mv = Some c ->
  exists c', cut_of k (accumulate k2 v mv) = Some c' /\ c <= c'.
Proof.
  induction mv as [|[k' w] mv IH]; simpl; [discriminate|].
  intros H. destruct (key_eqb k' k2) eqn:E2; simpl.
  - destruct (key_eqb k' k) eqn:E.
    + injection H as <-. exists (Np.fmax v w). split; [reflexivity|apply fmax_ge_r].
    + exists c. split; [exact H|lra].
  - destruct (key_eqb k' k) eqn:E.
    + exists c. split; [exact H|lra].
    + apply IH, H.
Qed.

Lemma accumulate_all_mono (input : list (string * option Q)) (rules : list Rule)
  (k : string * string) (c : Q) (mv : list (string * string * Q)) :
  cut_of k mv = Some c ->
  exists c', cut_of k (accumulate_all input rules mv) = Some c' /\ c <= c'.
Proof.
  revert c mv. induction rules as [|r rules IH]; intros c mv H; simpl.
  - exists c. split; [exact H|lra].
  - destruct (cut_of_accumulate_mono k (key_of (consequent r)) (strength input r) c mv H)
      as (c1 & H1 & Hle1).
    destruct (IH c1 _ H1) as (c2 & H2 & Hle2).
    exists c2. split; [exact H2|lra].
Qed.

(** After all rules ran, the consequent of each rule has a membership
    value, at least the activation the rule gave it. *)
Lemma accumulate_all_rule (input : list (string * option Q)) (rules : list Rule)
  (r : Rule) (mv : list (string * string * Q)) :
  In r rules ->
  exists c, cut_of (key_of (consequent r)) (accumulate_all input rules mv) = Some c /\
            strength input r <= c.
Proof.
  revert mv. induction rules as [|r' rules IH]; intros mv Hin; [contradiction|].
  simpl. destruct Hin as [->|Hin].
  - destruct (cut_of_accumulate_same (key_of (consequent r)) (strength input r) mv)
      as (c1 & H1 & Hle1).
    destruct (accumulate_all_mono input rules _ c1 _ H1) as (c2 & H2 & Hle2).
    exists c2. split; [exact H2|lra].
  - apply IH, Hin.
Qed.

Lemma cut_terms_In (var : FuzzyVariable) (ts : list (string * list Q))
  (mv : list (string * string * Q)) (name : string) (m : list Q) (c : Q) :
  In (name, m) ts -> cut_of (label var, name) mv = Some c ->
  In (m, c) (cut_terms var ts mv).
Proof.
  induction ts as [|[name' m'] ts IH]; simpl; intros Hin Hc; [contradiction|].
  destruct Hin as [E|Hin].
  - injection E as -> ->. rewrite Hc. left. reflexivity.
  - destruct (cut_of (label var, name') mv); [right|]; apply IH; assumption.
Qed.

(** * Facts about the upsampled universe *)

Lemma In_insert_unique (z x : Q) (l : list Q) :
  In z (Np.insert_unique x l) -> z = x \/ In z l.
Proof.
  induction l as [|y l IH]; simpl.
  - intros [<-|[]]. auto.
  - destruct (Qltb x y).
    + intros [<-|H]; auto.
    + destruct (Qeqb x y); [auto|].
      intros [<-|H]; auto. destruct (IH H); auto.
Qed.

Lemma insert_unique_keeps (z x : Q) (l : list Q) :
  In z l -> In z (Np.insert_unique x l).
Proof.
  induction l as [|y l IH]; simpl; [contradiction|].
  intros H. destruct (Qltb x y); [right; exact H|].
  destruct (Qeqb x y); [exact H|].
  destruct H as [<-|H]; [left; reflexivity|right; apply IH, H].
Qed.

Lemma insert_unique_adds (x : Q) (l : list Q) :
  canonical x -> Forall canonical l -> In x (Np.insert_unique x l).
Proof.
  intros Hx. induction l as [|y l IH]; simpl; intros Hl.
  - auto.
  - inversion Hl as [|? ? Hy Hl']; subst.
    destruct (Qltb x y); [left; reflexivity|].
    destruct (Qeqb x y) eqn:E.
    + apply Qeqb_eq in E. left. symmetry. apply canonical_eq; assumption.
    + right. apply IH, Hl'.
Qed.

Lemma unique_Forall (P : Q -> Prop) (ar : list Q) :
  Forall P ar -> Forall P (Np.unique ar).
Proof.
  induction ar as [|x ar IH]; simpl; intros H; [constructor|].
  inversion H as [|? ? Hx Har]; subst.
  apply Forall_forall. intros z Hz.
  destruct (In_insert_unique _ _ _ Hz) as [->|Hin]; [exact Hx|].
  specialize (IH Har). rewrite Forall_forall in IH. apply IH, Hin.
Qed.

Lemma unique_In (x : Q) (ar : list Q) :
  Forall canonical ar -> In x ar -> In x (Np.unique ar).
Proof.
  induction ar as [|y ar IH]; simpl; intros H Hin; [contradiction|].
  inversion H as [|? ? Hy Har]; subst.
  destruct Hin as [->|Hin].
  - apply insert_unique_adds; [exact Hy|].
    apply unique_Forall, Har.
  - apply insert_unique_keeps, IH; assumption.
Qed.

Lemma insert_unique_ascending (x : Q) (l : list Q) :
  ascending l -> ascending (Np.insert_unique x l).
Proof.
  induction l as [|y l IH]; simpl; intros H; [exact I|].
  destruct (Qltb x y) eqn:E1.
  - apply Qltb_lt in E1. simpl. auto.
  - destruct (Qeqb x y) eqn:E2; [exact H|].
    apply Qltb_ge in E1. apply Qeqb_neq in E2.
    assert (Hyx : y < x).
    { destruct (Qlt_le_dec y x) as [Hlt|Hle]; [exact Hlt|].
      exfalso. apply E2. lra. }
    destruct l as [|z l].
    + simpl. auto.
    + destruct H as [Hyz Hl]. specialize (IH Hl).
      simpl in *. destruct (Qltb x z) eqn:E3.
      * split; [exact Hyx|exact IH].
      * destruct (Qeqb x z); split; auto.
Qed.

Lemma unique_ascending (ar : list Q) : ascending (Np.unique ar).
Proof.
  induction ar as [|x ar IH]; simpl; [exact I|].
  apply insert_unique_ascending, IH.
Qed.

(** A crossing lies between the two sample points around it. *)
Lemma crossing_within (lo hi y x0 x1 m0 m1 : Q) :
  within lo hi x0 -> within lo hi x1 ->
  Bool.eqb (Fuzz.above y m0) (Fuzz.above y m1) = false ->
  within lo hi (x0 + (y - m0) * (x1 - x0) / (m1 - m0)).
Proof.
  intros [H0 H0'] [H1 H1'] Hab.
  assert (Hr : ~ m1 - m0 == 0 /\
               0 <= (y - m0) / (m1 - m0) /\ (y - m0) / (m1 - m0) <= 1).
  { unfold Fuzz.above in Hab. revert Hab.
    destruct (Qeqb y 0) eqn:Ey.
    - apply Qeqb_eq in Ey.
      destruct (Qltb y m0) eqn:E0; destruct (Qltb y m1) eqn:E1; simpl;
        try discriminate; intros _.
      + apply Qltb_lt in E0. apply Qltb_ge in E1.
        split; [lra|]. split.
        * setoid_replace ((y - m0) / (m1 - m0)) with ((m0 - y) / (m0 - m1))
            by (field; lra).
          apply Qle_shift_div_l; lra.
        * setoid_replace ((y - m0) / (m1 - m0)) with ((m0 - y) / (m0 - m1))
            by (field; lra).
          apply Qle_shift_div_r; lra.
      + apply Qltb_ge in E0. apply Qltb_lt in E1.
        split; [lra|]. split.
        * apply Qle_shift_div_l; lra.
        * apply Qle_shift_div_r; lra.
    - destruct (Qle_bool y m0) eqn:E0; destruct (Qle_bool y m1) eqn:E1; simpl;
        try discriminate; intros _.
      + apply Qle_bool_iff in E0. apply Qle_bool_gt in E1.
        split; [lra|]. split.
        * setoid_replace ((y - m0) / (m1 - m0)) with ((m0 - y) / (m0 - m1))
            by (field; lra).
          apply Qle_shift_div_l; lra.
        * setoid_replace ((y - m0) / (m1 - m0)) with ((m0 - y) / (m0 - m1))
            by (field; lra).
          apply Qle_shift_div_r; lra.
      + apply Qle_bool_gt in E0. apply Qle_bool_iff in E1.
        split; [lra|]. split.
        * apply Qle_shift_div_l; lra.
        * apply Qle_shift_div_r; lra. }
  destruct Hr as (Hne & Hr0 & Hr1).
  unfold within.
  setoid_replace (x0 + (y - m0) * (x1 - x0) / (m1 - m0))
    with (x0 + (x1 - x0) * ((y - m0) / (m1 - m0))) by (field; exact Hne).
  apply convex_within; lra.
Qed.

Lemma crossings_within (lo hi y : Q) (x xmf : list Q) :
  Forall (within lo hi) x -> Forall (within lo hi) (Fuzz.crossings y x xmf).
Proof.
  revert xmf. induction x as [|x0 x IH]; intros xmf H; [constructor|].
  destruct x as [|x1 x]; [destruct xmf; constructor|].
  destruct xmf as [|m0 [|m1 xmf]]; try constructor.
  inversion H as [|? ? H0 H']; subst.
  inversion H' as [|? ? H1 _]; subst.
  change (Fuzz.crossings y (x0 :: x1 :: x) (m0 :: m1 :: xmf))
    with (if Bool.eqb (Fuzz.above y m0) (Fuzz.above y m1)
          then Fuzz.crossings y (x1 :: x) (m1 :: xmf)
          else Qred (x0 + (y - m0) * (x1 - x0) / (m1 - m0))
               :: Fuzz.crossings y (x1 :: x) (m1 :: xmf)).
  destruct (Bool.eqb (Fuzz.above y m0) (Fuzz.above y m1)) eqn:E.
  - apply IH, H'.
  - constructor; [|apply IH, H'].
    destruct (crossing_within lo hi y x0 x1 m0 m1 H0 H1 E) as [Ha Hb].
    unfold within. rewrite Qred_correct. auto.
Qed.

Lemma crossings_canonical (y : Q) (x xmf : list Q) :
  Forall canonical (Fuzz.crossings y x xmf).
Proof.
  revert xmf. induction x as [|x0 x IH]; intros xmf; [constructor|].
  destruct x as [|x1 x]; [destruct xmf; constructor|].
  destruct xmf as [|m0 [|m1 xmf]]; try constructor.
  change (Fuzz.crossings y (x0 :: x1 :: x) (m0 :: m1 :: xmf))
    with (if Bool.eqb (Fuzz.above y m0) (Fuzz.above y m1)
          then Fuzz.crossings y (x1 :: x) (m1 :: xmf)
          else Qred (x0 + (y - m0) * (x1 - x0) / (m1 - m0))
               :: Fuzz.crossings y (x1 :: x) (m1 :: xmf)).
  destruct (Bool.eqb (Fuzz.above y m0) (Fuzz.above y m1)).
  - apply IH.
  - constructor; [apply canonical_Qred|apply IH].
Qed.

Lemma Forall_flat_map {A B : Type} (P : B -> Prop) (f : A -> list B) (l : list A) :
  (forall a, In a l -> Forall P (f a)) -> Forall P (flat_map f l).
Proof.
  induction l as [|a l IH]; simpl; intros H; [constructor|].
  apply Forall_app. split; [apply H; auto|apply IH; intros; apply H; auto].
Qed.

(** The upsampled universe is increasing, stays within the bounds of the
    universe, and keeps every sample point. *)
Lemma new_universe_ascending (u : list Q) (cuts : list (list Q * Q)) :
  ascending (new_universe u cuts).
Proof. apply unique_ascending. Qed.

Lemma new_universe_within (lo hi : Q) (u : list Q) (cuts : list (list Q * Q)) :
  Forall (within lo hi) u -> Forall (within lo hi) (new_universe u cuts).
Proof.
  intros H. apply unique_Forall, Forall_app. split; [exact H|].
  apply Forall_flat_map. intros mc _. apply crossings_within, H.
Qed.

Lemma new_universe_keeps (u : list Q) (cuts : list (list Q * Q)) (x : Q) :
  Forall canonical u -> In x u -> In x (new_universe u cuts).
Proof.
  intros H Hin. apply unique_In; [|apply in_or_app; auto].
  apply Forall_app. split; [exact H|].
  apply Forall_flat_map. intros mc _. apply crossings_canonical.
Qed.

(** * Facts about the aggregated membership and the centroid *)

Lemma output_fold_ge_acc (u : list Q) (cuts : list (list Q * Q)) (xx acc : Q) :
  acc <= fold_left
           (fun a (mc : list Q * Q) =>
              Np.fmax a (Np.fmin (snd mc) (Fuzz.interp_membership u (fst mc) xx)))
           cuts acc.
Proof.
  revert acc. induction cuts as [|mc cuts IH]; simpl; intros acc; [lra|].
  eapply Qle_trans; [|apply IH]. apply fmax_ge_l.
Qed.

Lemma output_at_nonneg (u : list Q) (cuts : list (list Q * Q)) (xx : Q) :
  0 <= output_at u cuts xx.
Proof. apply output_fold_ge_acc. Qed.

Lemma output_fold_ge_term (u : list Q) (cuts : list (list Q * Q)) (xx acc : Q)
  (m : list Q) (c : Q) :
  In (m, c) cuts ->
  Np.fmin c (Fuzz.interp_membership u m xx)
  <= fold_left
       (fun a (mc : list Q * Q) =>
          Np.fmax a (Np.fmin (snd mc) (Fuzz.interp_membership u (fst mc) xx)))
       cuts acc.
Proof.
  revert acc. induction cuts as [|mc cuts IH]; simpl; intros acc Hin; [contradiction|].
  destruct Hin as [->|Hin].
  - simpl. eapply Qle_trans; [|apply output_fold_ge_acc]. apply fmax_ge_r.
  - apply IH, Hin.
Qed.

(** The aggregated membership is positive where a term with a positive cut
    is. *)
Lemma output_at_pos (u : list Q) (cuts : list (list Q * Q)) (xx : Q)
  (m : list Q) (c : Q) :
  In (m, c) cuts -> 0 < c -> 0 < Fuzz.interp_membership u m xx ->
  0 < output_at u cuts xx.
Proof.
  intros Hin Hc Hm.
  pose proof (output_fold_ge_term u cuts xx 0 m c Hin) as H.
  unfold output_at.
  destruct (fmin_spec c (Fuzz.interp_membership u m xx)) as [[_ E]|[_ E]];
    rewrite E in H; lra.
Qed.

Lemma sum_fold_ge (l : list Q) (acc : Q) :
  Forall (fun y => 0 <= y) l -> acc <= fold_left Qplus l acc.
Proof.
  revert acc. induction l as [|y l IH]; simpl; intros acc H; [lra|].
  inversion H as [|? ? Hy Hl]; subst.
  specialize (IH (acc + y) Hl). lra.
Qed.

Lemma sum_fold_pos (l : list Q) (y acc : Q) :
  Forall (fun y => 0 <= y) l -> In y l -> 0 < y -> acc < fold_left Qplus l acc.
Proof.
  revert acc. induction l as [|z l IH]; simpl; intros acc H Hin Hy; [contradiction|].
  inversion H as [|? ? Hz Hl]; subst.
  destruct Hin as [->|Hin].
  - pose proof (sum_fold_ge l (acc + y) Hl). lra.
  - specialize (IH (acc + z) Hl Hin Hy). lra.
Qed.

Lemma sum_pos (l : list Q) (y : Q) :
  Forall (fun y => 0 <= y) l -> In y l -> 0 < y -> 0 < Np.sum l.
Proof. intros. unfold Np.sum. apply (sum_fold_pos l y); assumption. Qed.

(** A piece of the area under the aggregated membership: its area is not
    negative and its centre lies between its two ends. *)
Lemma piece_bounds (hi x1 y1 x2 y2 m a : Q) :
  Fuzz.piece x1 y1 x2 y2 = Some (m, a) ->
  0 <= x1 -> x1 <= x2 -> x2 <= hi -> 0 <= y1 -> 0 <= y2 ->
  0 <= a /\ 0 <= m * a /\ m * a <= hi * a.
Proof.
  unfold Fuzz.piece. intros H Hx1 Hx Hx2 Hy1 Hy2.
  assert (Hm : Fuzz.piece x1 y1 x2 y2 = Some (m, a) -> 0 <= a /\ x1 <= m /\ m <= x2);
    [|destruct (Hm H) as (Ha & Hm1 & Hm2); repeat split; nra].
  clear H. unfold Fuzz.piece.
  destruct (Qeqb y1 y2) eqn:E12; destruct (Qeqb y2 0) eqn:E2;
    destruct (Qeqb x1 x2) eqn:Ex; destruct (Qeqb y1 0) eqn:E1; simpl;
    try discriminate; intros H; injection H as <- <-;
    repeat match goal with
    | E : Qeqb _ _ = true |- _ => apply Qeqb_eq in E
    | E : Qeqb _ _ = false |- _ => apply Qeqb_neq in E
    end;
    try (repeat split; nra).
  (* the general trapezium *)
  assert (Hy : 0 < y1 + y2).
  { destruct (Qlt_le_dec 0 y1); [lra|].
    exfalso. apply E1. lra. }
  assert (H0 : 0 <= (2 # 3) * (x2 - x1) * (y2 + (1 # 2) * y1) / (y1 + y2)).
  { apply Qle_shift_div_l; [exact Hy|]. nra. }
  assert (H1 : (2 # 3) * (x2 - x1) * (y2 + (1 # 2) * y1) / (y1 + y2) <= x2 - x1).
  { apply Qle_shift_div_r; [exact Hy|]. nra. }
  repeat split; try nra; lra.
Qed.

Lemma centroid_loop_bounds (hi : Q) (x mfx : list Q) (acc : Q * Q) :
  ascending x -> Forall (within 0 hi) x -> Forall (fun y => 0 <= y) mfx ->
  0 <= snd acc /\ 0 <= fst acc /\ fst acc <= hi * snd acc ->
  let r := Fuzz.centroid_loop x mfx acc in
  0 <= snd r /\ 0 <= fst r /\ fst r <= hi * snd r.
Proof.
  revert mfx acc. induction x as [|x1 x IH]; intros mfx acc Hasc Hx Hy Hacc;
    [exact Hacc|].
  destruct x as [|x2 x]; [destruct mfx; exact Hacc|].
  destruct mfx as [|y1 [|y2 mfx]]; try exact Hacc.
  change (Fuzz.centroid_loop (x1 :: x2 :: x) (y1 :: y2 :: mfx) acc)
    with (Fuzz.centroid_loop (x2 :: x) (y2 :: mfx)
            match Fuzz.piece x1 y1 x2 y2 with
            | Some (moment, area) =>
                (Qred (fst acc + moment * area), Qred (snd acc + area))
            | None => acc
            end).
  destruct Hasc as [Hlt Hasc].
  inversion Hx as [|? ? [Hx1 Hx1'] Hx']; subst.
  inversion Hx' as [|? ? [Hx2 Hx2'] _]; subst.
  inversion Hy as [|? ? Hy1 Hy']; subst.
  inversion Hy' as [|? ? Hy2 _]; subst.
  apply IH; auto.
  destruct (Fuzz.piece x1 y1 x2 y2) as [[m a]|] eqn:E; [|exact Hacc].
  destruct (piece_bounds hi x1 y1 x2 y2 m a E) as (Ha & Hm0 & Hm1); try lra.
  cbn [fst snd]. rewrite !Qred_correct. lra.
Qed.

Lemma eps_pos : 0 < Fuzz.eps.
Proof. reflexivity. Qed.

Lemma quotient_bounds (hi sm sa : Q) :
  0 <= hi -> 0 <= sa -> 0 <= sm -> sm <= hi * sa ->
  0 <= sm / Np.fmax sa Fuzz.eps /\ sm / Np.fmax sa Fuzz.eps <= hi.
Proof.
  intros Hhi Hsa Hsm Hle.
  pose proof eps_pos as He.
  pose proof (fmax_ge_l sa Fuzz.eps) as H1.
  pose proof (fmax_ge_r sa Fuzz.eps) as H2.
  split.
  - apply Qle_shift_div_l; lra.
  - apply Qle_shift_div_r; [lra|]. nra.
Qed.

(** The centroid of a non-negative membership vector over an increasing
    universe within [[0, hi]] lies within [[0, hi]]. *)
Lemma centroid_bounds (hi : Q) (x mfx : list Q) :
  0 <= hi -> ascending x -> Forall (within 0 hi) x ->
  Forall (fun y => 0 <= y) mfx ->
  within 0 hi (Fuzz.centroid x mfx).
Proof.
  intros Hhi Hasc Hx Hy.
  assert (Hloop : forall x' mfx',
             ascending x' -> Forall (within 0 hi) x' ->
             Forall (fun y => 0 <= y) mfx' ->
             within 0 hi
               (let '(sum_moment_area, sum_area) := Fuzz.centroid_loop x' mfx' (0, 0) in
                Qred (sum_moment_area / Np.fmax sum_area Fuzz.eps))).
  { intros x' mfx' Ha Hw Hn.
    pose proof (centroid_loop_bounds hi x' mfx' (0, 0) Ha Hw Hn) as H.
    cbv zeta in H.
    destruct (Fuzz.centroid_loop x' mfx' (0, 0)) as [sm sa]. cbn [fst snd] in H.
    destruct H as (H1 & H2 & H3); [lra|].
    unfold within. rewrite Qred_correct.
    apply quotient_bounds; assumption. }
  unfold Fuzz.centroid.
  destruct x as [|x0 [|x1 x]]; try (apply Hloop; assumption).
  destruct mfx as [|m0 [|m1 mfx]]; try (apply Hloop; assumption).
  inversion Hx as [|? ? [Hx0 Hx0'] _]; subst.
  inversion Hy as [|? ? Hm0 _]; subst.
  unfold within. rewrite Qred_correct.
  apply quotient_bounds; try assumption; nra.
Qed.

(** The defuzzifier of a variable: when a term with a positive cut is
    positive at a sample point, it answers, within the bounds of the
    universe. *)
Lemma defuzz_bounds (hi : Q) (var : FuzzyVariable) (mv : list (string * string * Q))
  (name : string) (m : list Q) (c x : Q) :
  0 <= hi -> Forall (within 0 hi) (universe var) ->
  Forall canonical (universe var) ->
  In (name, m) (terms var) -> cut_of (label var, name) mv = Some c -> 0 < c ->
  In x (universe var) -> 0 < Fuzz.interp_membership (universe var) m x ->
  exists d, Ctrl.defuzz var mv = Ok d /\ within 0 hi d.
Proof.
  intros Hhi Hw Hcan Hin Hcut Hc Hx Hm.
  unfold Ctrl.defuzz.
  pose proof (cut_terms_In var (terms var) mv name m c Hin Hcut) as Hterm.
  set (cuts := cut_terms var (terms var) mv) in *.
  destruct cuts as [|mc cuts'] eqn:Ecuts; [contradiction|].
  rewrite <- Ecuts in *. clear Ecuts mc cuts'.
  unfold Fuzz.defuzz. rewrite length_map, Nat.eqb_refl.
  set (X := new_universe (universe var) cuts).
  assert (Hnn : Forall (fun y => 0 <= y) (map (output_at (universe var) cuts) X)).
  { apply Forall_forall. intros y Hy. apply in_map_iff in Hy.
    destruct Hy as (z & <- & _). apply output_at_nonneg. }
  assert (Hsum : 0 < Np.sum (map (output_at (universe var) cuts) X)).
  { apply (sum_pos _ (output_at (universe var) cuts x)); [exact Hnn| |].
    - apply in_map, new_universe_keeps; assumption.
    - apply (output_at_pos _ _ _ m c); assumption. }
  destruct (Qeqb (Np.sum (map (output_at (universe var) cuts) X)) 0) eqn:E.
  { apply Qeqb_eq in E. lra. }
  eexists. split; [reflexivity|].
  apply centroid_bounds; auto.
  - apply new_universe_ascending.
  - apply new_universe_within, Hw.
Qed.

(** * The objects of the program *)

Lemma Setup_init_ok : Setup_init = Ok the_setup.
Proof. vm_compute. reflexivity. Qed.

Lemma Rules_init_ok : Rules_init = Ok the_rules.
Proof. vm_compute. reflexivity. Qed.

Lemma TrafficLightControlSystem_init_ok : TrafficLightControlSystem_init = Ok tlcs0.
Proof. vm_compute. reflexivity. Qed.

Lemma antecedents_the_rules :
  antecedents the_rules =
  [traffic_during_day the_setup; cars_queuing the_setup;
   air_transparency the_setup; emergency the_setup].
Proof. vm_compute. reflexivity. Qed.

Lemma consequents_the_rules : consequents the_rules = [light_duration the_setup].
Proof. vm_compute. reflexivity. Qed.

Lemma regular_setup :
  regularb (traffic_during_day the_setup) = true /\
  regularb (cars_queuing the_setup) = true /\
  regularb (air_transparency the_setup) = true /\
  regularb (emergency the_setup) = true.
Proof. vm_compute. auto. Qed.

Lemma rules_ok : rules_okb (light_duration the_setup) the_rules = true.
Proof. vm_compute. reflexivity. Qed.

Lemma all_choices_fire_true : all_choices_fire = true.
Proof. vm_compute. reflexivity. Qed.

Lemma light_universe_ok :
  Forall (within 0 21) (universe (light_duration the_setup)) /\
  Forall canonical (universe (light_duration the_setup)).
Proof.
  split; apply Forall_forall; intros x Hx.
  - apply withinb_true.
    assert (H : forallb (withinb 0 21) (universe (light_duration the_setup)) = true)
      by (vm_compute; reflexivity).
    rewrite forallb_forall in H. apply H, Hx.
  - apply canonicalb_true.
    assert (H : forallb canonicalb (universe (light_duration the_setup)) = true)
      by (vm_compute; reflexivity).
    rewrite forallb_forall in H. apply H, Hx.
Qed.

(** * Some rule always fires *)

Lemma mem_In (s : string) (l : list string) : mem s l = true -> In s l.
Proof.
  unfold mem. intros H. apply existsb_exists in H.
  destruct H as (s' & Hin & E). apply String.eqb_eq in E. subst. exact Hin.
Qed.

Lemma lookup_the_input (l : string) (t q v e : Q) :
  In l input_labels -> exists x, lookup l (the_input t q v e) = Some (Some x).
Proof.
  intros [<-|[<-|[<-|[<-|[]]]]]; eexists; reflexivity.
Qed.

Lemma rules_ok_leaf (r : Rule) (t : Term) :
  In r the_rules -> In t (leaves (antecedent r)) -> leaf_okb t = true.
Proof.
  intros Hr Ht. pose proof rules_ok as H. unfold rules_okb in H.
  rewrite forallb_forall in H. specialize (H r Hr).
  apply andb_true_iff in H. destruct H as [_ H].
  rewrite forallb_forall in H. apply H, Ht.
Qed.

Lemma leaf_ok_spec (t : Term) :
  leaf_okb t = true ->
  Forall (within 0 1) (mf t) /\ universe (parent t) <> [] /\
  In (label (parent t)) input_labels.
Proof.
  unfold leaf_okb. rewrite !andb_true_iff, negb_true_iff, Nat.eqb_neq.
  intros [[Hw Hn] Hm]. repeat split.
  - apply Forall_forall. intros y Hy. apply withinb_true.
    rewrite forallb_forall in Hw. apply Hw, Hy.
  - intros E. rewrite E in Hn. apply Hn. reflexivity.
  - apply mem_In, Hm.
Qed.

Lemma has_inputs_the_rules (t q v e : Q) : has_inputs (the_input t q v e) the_rules.
Proof.
  intros r l Hr Hl.
  destruct (leaf_ok_spec l (rules_ok_leaf r l Hr Hl)) as (_ & _ & Hin).
  apply lookup_the_input, Hin.
Qed.

(** The degree of a term of a rule of the program lies in [[0, 1]]. *)
Lemma degree_within (input : list (string * option Q)) (r : Rule) (t : Term) :
  In r the_rules -> In t (leaves (antecedent r)) -> within 0 1 (degree input t).
Proof.
  intros Hr Ht.
  destruct (leaf_ok_spec t (rules_ok_leaf r t Hr Ht)) as (Hw & Hne & _).
  unfold degree.
  destruct (lookup (label (parent t)) input) as [[x|]|];
    try (unfold within; lra).
  apply interp_membership_within; assumption.
Qed.

Lemma regular_positive (var : FuzzyVariable) (x : Q) :
  regularb var = true ->
  exists nm, In nm (terms var) /\
             0 < Fuzz.interp_membership (universe var) (snd nm) (clip var x).
Proof.
  unfold regularb. rewrite !andb_true_iff, negb_true_iff, Nat.eqb_neq.
  intros [[[[Hc Hn] Hmin] Hmax] Hle].
  apply Qeqb_eq in Hmin. apply Qeqb_eq in Hmax. apply Qle_bool_iff in Hle.
  assert (Hne : universe var <> []).
  { intros E. rewrite E in Hn. apply Hn. reflexivity. }
  apply covered_positive; auto.
  destruct (clip_within var x Hle) as [H1 H2]. lra.
Qed.

Lemma list_Q_eqb_eq (l1 l2 : list Q) : list_Q_eqb l1 l2 = true -> l1 = l2.
Proof. unfold list_Q_eqb. destruct (list_eq_dec Q_eq_dec l1 l2); congruence. Qed.

(** Terms that compare equal have the same degree. *)
Lemma term_eqb_degree (input : list (string * option Q)) (t1 t2 : Term) :
  term_eqb t1 t2 = true -> degree input t1 = degree input t2.
Proof.
  unfold term_eqb, var_eqb. rewrite !andb_true_iff.
  intros [[Hl Hu] Hm].
  apply String.eqb_eq in Hl. apply list_Q_eqb_eq in Hu. apply list_Q_eqb_eq in Hm.
  unfold degree. rewrite Hl, Hu, Hm. reflexivity.
Qed.

Lemma degree_traffic (nm : string * list Q) (t q v e : Q) :
  degree (the_input t q v e) (term_of (traffic_during_day the_setup) nm) =
  Fuzz.interp_membership (universe (traffic_during_day the_setup)) (snd nm)
    (clip (traffic_during_day the_setup) t).
Proof. reflexivity. Qed.

Lemma degree_cars (nm : string * list Q) (t q v e : Q) :
  degree (the_input t q v e) (term_of (cars_queuing the_setup) nm) =
  Fuzz.interp_membership (universe (cars_queuing the_setup)) (snd nm)
    (clip (cars_queuing the_setup) q).
Proof. reflexivity. Qed.

Lemma degree_air (nm : string * list Q) (t q v e : Q) :
  degree (the_input t q v e) (term_of (air_transparency the_setup) nm) =
  Fuzz.interp_membership (universe (air_transparency the_setup)) (snd nm)
    (clip (air_transparency the_setup) v).
Proof. reflexivity. Qed.

Lemma degree_emergency (nm : string * list Q) (t q v e : Q) :
  degree (the_input t q v e) (term_of (emergency the_setup) nm) =
  Fuzz.interp_membership (universe (emergency the_setup)) (snd nm)
    (clip (emergency the_setup) e).
Proof. reflexivity. Qed.

Lemma strength_pos (input : list (string * option Q)) (r : Rule) :
  0 < eval (degree input) (antecedent r) -> 0 < strength input r.
Proof. unfold strength. rewrite Qred_correct. lra. Qed.

(** For every input some rule of the program has a positive activation. *)
Lemma some_rule_fires (t q v e : Q) :
  exists r, In r the_rules /\ 0 < strength (the_input t q v e) r.
Proof.
  destruct regular_setup as (Rt & Rc & Ra & Re).
  destruct (regular_positive _ t Rt) as (nt & Hnt & Pt).
  destruct (regular_positive _ q Rc) as (nc & Hnc & Pc).
  destruct (regular_positive _ v Ra) as (na & Hna & Pa).
  destruct (regular_positive _ e Re) as (ne & Hne & Pe).
  set (ts := [term_of (traffic_during_day the_setup) nt;
              term_of (cars_queuing the_setup) nc;
              term_of (air_transparency the_setup) na;
              term_of (emergency the_setup) ne]).
  assert (Hts : In ts choices).
  { unfold choices.
    apply in_flat_map. exists nt. split; [exact Hnt|].
    apply in_flat_map. exists nc. split; [exact Hnc|].
    apply in_flat_map. exists na. split; [exact Hna|].
    apply in_map_iff. exists ne. split; [reflexivity|exact Hne]. }
  pose proof all_choices_fire_true as Hall. unfold all_choices_fire in Hall.
  rewrite forallb_forall in Hall. specialize (Hall ts Hts).
  apply existsb_exists in Hall. destruct Hall as (r & Hr & Hh).
  exists r. split; [exact Hr|].
  apply strength_pos.
  apply (eval_pos _ (chosen ts)); [| |exact Hh].
  - intros l Hl. apply (degree_within _ r l Hr Hl).
  - intros l Hl Hch. unfold chosen in Hch.
    apply existsb_exists in Hch. destruct Hch as (l' & Hin & Heq).
    rewrite (term_eqb_degree _ _ _ Heq).
    destruct Hin as [<-|[<-|[<-|[<-|[]]]]].
    + rewrite degree_traffic. exact Pt.
    + rewrite degree_cars. exact Pc.
    + rewrite degree_air. exact Pa.
    + rewrite degree_emergency. exact Pe.
Qed.

Lemma consequent_ok_spec (var : FuzzyVariable) (r : Rule) :
  consequent_okb var r = true ->
  exists name m x,
    key_of (consequent r) = (label var, name) /\ In (name, m) (terms var) /\
    In x (universe var) /\ 0 < Fuzz.interp_membership (universe var) m x.
Proof.
  unfold consequent_okb. rewrite andb_true_iff. intros [Hl He].
  apply String.eqb_eq in Hl.
  apply existsb_exists in He. destruct He as ([name m] & Hin & H).
  apply andb_true_iff in H. destruct H as [Hn Hx]. simpl in Hn, Hx.
  apply String.eqb_eq in Hn.
  apply existsb_exists in Hx. destruct Hx as (x & Hxin & Hpos).
  exists name, m, x. repeat split; auto.
  - unfold key_of. rewrite Hl, Hn. reflexivity.
  - apply Qltb_lt, Hpos.
Qed.

(** The defuzzifier answers for every input, within the sample points of
    the consequent. *)
Lemma defuzz_the_rules (t q v e : Q) :
  exists d,
    Ctrl.defuzz (light_duration the_setup)
      (accumulate_all (the_input t q v e) the_rules []) = Ok d /\
    within 0 21 d.
Proof.
  destruct (some_rule_fires t q v e) as (r & Hr & Hpos).
  set (input := the_input t q v e) in *.
  destruct (accumulate_all_rule input the_rules r [] Hr) as (c & Hc & Hle).
  pose proof rules_ok as Hok. unfold rules_okb in Hok.
  rewrite forallb_forall in Hok. specialize (Hok r Hr).
  apply andb_true_iff in Hok. destruct Hok as [Hcons _].
  destruct (consequent_ok_spec _ _ Hcons) as (name & m & x & Hkey & Hin & Hx & Hm).
  rewrite Hkey in Hc.
  destruct light_universe_ok as [Hw Hcan].
  apply (defuzz_bounds 21 _ _ name m c x); auto; lra.
Qed.

Lemma run_rules_defuzz (t q v e d : Q) :
  Ctrl.defuzz (light_duration the_setup)
    (accumulate_all (the_input t q v e) the_rules []) = Ok d ->
  run_rules the_rules (the_input t q v e) = Ok [("light_duration"%string, d)].
Proof.
  intros Hd. unfold run_rules.
  rewrite compute_rules_ok by apply has_inputs_the_rules.
  rewrite consequents_the_rules.
  cbn [bind mapM]. rewrite Hd. reflexivity.
Qed.

(** One run of the rules of the program answers for every input. *)
Lemma run_rules_the_rules (t q v e : Q) :
  exists d, run_rules the_rules (the_input t q v e) = Ok [("light_duration"%string, d)] /\
            within 0 21 d.
Proof.
  destruct (defuzz_the_rules t q v e) as (d & Hd & Hw).
  exists d. split; [apply run_rules_defuzz, Hd|exact Hw].
Qed.

Lemma infer_run_rules (t q v e d : Q) :
  run_rules the_rules (the_input t q v e) = Ok [("light_duration"%string, d)] ->
  infer t q v e = Ok d.
Proof. intros H. unfold infer. rewrite H. reflexivity. Qed.

Lemma infer_total (t q v e : Q) :
  exists d, infer t q v e = Ok d /\ within 0 21 d.
Proof.
  destruct (run_rules_the_rules t q v e) as (d & Hd & Hw).
  exists d. split; [apply infer_run_rules, Hd|exact Hw].
Qed.

(** * The simulation object between calls *)

Lemma lookup_assign_same {A : Type} (k : string) (v : A) (d : list (string * A)) :
  lookup k (assign k v d) = Some v.
Proof.
  induction d as [|[k' w] d IH]; simpl.
  - rewrite String.eqb_refl. reflexivity.
  - destruct (String.eqb k' k) eqn:E; simpl; rewrite E; [reflexivity|exact IH].
Qed.

Lemma find_calculated_In (uid : list (string * option Q))
  (c : list (list (string * option Q) * list (string * Q))) (out : list (string * Q)) :
  find_calculated uid c = Some out -> In (uid, out) c.
Proof.
  induction c as [|[uid' out'] c IH]; simpl; [discriminate|].
  destruct (input_eq_dec uid' uid) as [->|_].
  - intros H. injection H as ->. left. reflexivity.
  - intros H. right. apply IH, H.
Qed.

Lemma no_inputs_labels : map fst (no_inputs the_rules) = input_labels.
Proof. vm_compute. reflexivity. Qed.

Lemma find_antecedents :
  let a := antecedents the_rules in
  find (fun v => String.eqb (label v) "traffic_during_day") a
    = Some (traffic_during_day the_setup) /\
  find (fun v => String.eqb (label v) "cars_queuing") a
    = Some (cars_queuing the_setup) /\
  find (fun v => String.eqb (label v) "air_transparency") a
    = Some (air_transparency the_setup) /\
  find (fun v => String.eqb (label v) "emergency") a
    = Some (emergency the_setup).
Proof. vm_compute. auto. Qed.

Lemma wf_new_simulation : wf_sim (new_simulation the_rules).
Proof. repeat split. intros uid out []. Qed.

Lemma wf_tlcs0 : wf tlcs0.
Proof. apply wf_new_simulation. Qed.

(** The four assignments leave exactly the clipped inputs. *)
Lemma assign_inputs (i : list (string * option Q)) (t q v e : Q) :
  map fst i = map fst (no_inputs the_rules) ->
  assign "emergency" (Some (clip (emergency the_setup) e))
    (assign "air_transparency" (Some (clip (air_transparency the_setup) v))
       (assign "cars_queuing" (Some (clip (cars_queuing the_setup) q))
          (assign "traffic_during_day" (Some (clip (traffic_during_day the_setup) t)) i)))
  = the_input t q v e.
Proof.
  rewrite no_inputs_labels.
  destruct i as [|[l1 a1] [|[l2 a2] [|[l3 a3] [|[l4 a4] [|? ?]]]]]; try discriminate.
  simpl. intros H. injection H as -> -> -> ->. reflexivity.
Qed.

(** What [compute] and the read of the output give on a well-formed
    simulation object that holds the clipped inputs. *)
Lemma compute_the_input (sim : ControlSystemSimulation) (t q v e : Q) :
  wf_sim sim -> input sim = the_input t q v e ->
  exists sim' d,
    compute sim = Ok sim' /\ wf_sim sim' /\
    get_output sim' "light_duration" = Ok d /\ infer t q v e = Ok d.
Proof.
  intros (Hctrl & Hin & Hcalc) Hinput.
  destruct (run_rules_the_rules t q v e) as (d & Hrun & _).
  pose proof (infer_run_rules t q v e d Hrun) as Hinf.
  unfold compute. rewrite Hinput, Hctrl.
  destruct (find_calculated (the_input t q v e) (calculated sim)) as [out|] eqn:E.
  - apply find_calculated_In, Hcalc in E. rewrite Hrun in E. injection E as <-.
    eexists. exists d. split; [reflexivity|]. split; [|split].
    + repeat split; auto.
    + unfold get_output. cbn [output store_outputs fold_left fst snd].
      rewrite lookup_assign_same. reflexivity.
    + exact Hinf.
  - rewrite Hrun. cbn [bind].
    eexists. exists d. split; [reflexivity|]. split; [|split].
    + destruct (Nat.eqb _ _).
      * repeat split. intros uid out [].
      * repeat split; auto. cbn [calculated].
        intros uid out [H|H]; [injection H as <- <-; exact Hrun|apply Hcalc, H].
    + unfold get_output.
      destruct (Nat.eqb _ _); cbn [_reset_simulation output store_outputs fold_left fst snd];
        rewrite lookup_assign_same; reflexivity.
    + exact Hinf.
Qed.

Lemma set_input_wf (sim : ControlSystemSimulation) (key : string)
  (var : FuzzyVariable) (value : Q) :
  ctrl sim = the_rules ->
  find (fun v => String.eqb (label v) key) (antecedents the_rules) = Some var ->
  set_input sim key value =
  Ok {| ctrl := ctrl sim;
        input := assign key (Some (clip var value)) (input sim);
        output := output sim; calculated := calculated sim; run := run sim |}.
Proof.
  intros Hc Hf. unfold set_input. rewrite Hc, Hf. reflexivity.
Qed.

(** A call of [perform_simulation] on a well-formed object returns what
    one run of the rules answers on the clipped inputs, and leaves the
    object well-formed. *)
Lemma perform_simulation_infer (system : TrafficLightControlSystem) (t q v e : Q) :
  wf system ->
  fst (perform_simulation system t q v e) = infer t q v e /\
  wf (snd (perform_simulation system t q v e)).
Proof.
  intros Hwf. pose proof Hwf as (Hctrl & Hin & Hcalc).
  unfold perform_simulation.
  destruct find_antecedents as (Ft & Fc & Fa & Fe).
  rewrite (set_input_wf _ _ (traffic_during_day the_setup)) by assumption.
  rewrite (set_input_wf _ _ (cars_queuing the_setup)) by assumption.
  rewrite (set_input_wf _ _ (air_transparency the_setup)) by assumption.
  rewrite (set_input_wf _ _ (emergency the_setup)) by assumption.
  cbn [ctrl input output calculated run].
  rewrite (assign_inputs _ t q v e Hin).
  match goal with
  | |- context [compute ?s] =>
      destruct (compute_the_input s t q v e) as (sim' & d & Hc & Hw & Hg & Hi);
      [repeat split; auto|reflexivity|]
  end.
  rewrite Hc. cbn [fst snd]. rewrite Hg, Hi. split; [reflexivity|exact Hw].
Qed.

Lemma wf_after_calls (calls : list (Q * Q * Q * Q)) (system : TrafficLightControlSystem) :
  wf system -> wf (after_calls system calls).
Proof.
  revert system. induction calls as [|[[[t q] v] e] calls IH]; intros system H;
    [exact H|].
  simpl. apply IH. apply perform_simulation_infer, H.
Qed.

(** * The rules under a certain emergency *)

Lemma the_rules_nth : the_rules = map rule (seq 0 7).
Proof. vm_compute. reflexivity. Qed.

Lemma rule_In (k : nat) : (k < 7)%nat -> In (rule k) the_rules.
Proof.
  intros H. rewrite the_rules_nth. apply in_map, in_seq. lia.
Qed.

Lemma first_rule_shape :
  antecedent (rule 0) = Or (left_of (antecedent (rule 0))) (Leaf e_is).
Proof. vm_compute. reflexivity. Qed.

Lemma other_rules_shape (k : nat) :
  (1 <= k < 7)%nat ->
  antecedent (rule k) = And (left_of (antecedent (rule k))) (Leaf e_is_not).
Proof.
  intros H.
  destruct k as [|[|[|[|[|[|[|k]]]]]]]; try lia; vm_compute; reflexivity.
Qed.

Lemma strength_or_one (input : list (string * option Q)) (r : Rule)
  (X : TermAggregate) (t : Term) :
  antecedent r = Or X (Leaf t) -> degree input t == 1 ->
  within 0 1 (eval (degree input) X) ->
  strength input r = 1.
Proof.
  intros Ha Ht [_ HX]. unfold strength. rewrite Ha. cbn [eval].
  transitivity (Qred 1); [|reflexivity]. apply Qred_complete.
  destruct (fmax_spec (eval (degree input) X) (degree input t)) as [[_ ->]|[H ->]]; lra.
Qed.

Lemma strength_and_zero (input : list (string * option Q)) (r : Rule)
  (X : TermAggregate) (t : Term) :
  antecedent r = And X (Leaf t) -> degree input t == 0 ->
  within 0 1 (eval (degree input) X) ->
  strength input r = 0.
Proof.
  intros Ha Ht [HX _]. unfold strength. rewrite Ha. cbn [eval].
  transitivity (Qred 0); [|reflexivity]. apply Qred_complete.
  destruct (fmin_spec (eval (degree input) X) (degree input t)) as [[H ->]|[_ ->]]; lra.
Qed.

Lemma left_of_within (input : list (string * option Q)) (k : nat) :
  (k < 7)%nat -> within 0 1 (eval (degree input) (left_of (antecedent (rule k)))).
Proof.
  intros Hk. apply eval_within. intros t Ht.
  apply (degree_within input (rule k) t (rule_In k Hk)).
  destruct (Nat.eq_dec k 0) as [->|Hn].
  - rewrite first_rule_shape. cbn [leaves]. apply in_or_app. auto.
  - rewrite other_rules_shape by lia. cbn [leaves]. apply in_or_app. auto.
Qed.

(** When the emergency is certain, the first rule fires fully and no
    other rule fires. *)
Lemma strengths_emergency (input : list (string * option Q)) :
  degree input e_is == 1 -> degree input e_is_not == 0 ->
  map (strength input) the_rules = emergency_strengths.
Proof.
  intros H1 H0. rewrite the_rules_nth. cbn [map seq].
  rewrite (strength_or_one input (rule 0) _ _ first_rule_shape H1)
    by (apply left_of_within; lia).
  rewrite (strength_and_zero input (rule 1) _ _ (other_rules_shape 1 ltac:(lia)) H0)
    by (apply left_of_within; lia).
  rewrite (strength_and_zero input (rule 2) _ _ (other_rules_shape 2 ltac:(lia)) H0)
    by (apply left_of_within; lia).
  rewrite (strength_and_zero input (rule 3) _ _ (other_rules_shape 3 ltac:(lia)) H0)
    by (apply left_of_within; lia).
  rewrite (strength_and_zero input (rule 4) _ _ (other_rules_shape 4 ltac:(lia)) H0)
    by (apply left_of_within; lia).
  rewrite (strength_and_zero input (rule 5) _ _ (other_rules_shape 5 ltac:(lia)) H0)
    by (apply left_of_within; lia).
  rewrite (strength_and_zero input (rule 6) _ _ (other_rules_shape 6 ltac:(lia)) H0)
    by (apply left_of_within; lia).
  reflexivity.
Qed.

Lemma accumulate_all_list (input : list (string * option Q)) (rules : list Rule)
  (mv : list (string * string * Q)) :
  accumulate_all input rules mv = accumulate_list rules (map (strength input) rules) mv.
Proof.
  unfold accumulate_all, accumulate_list. revert mv.
  induction rules as [|r rules IH]; intros mv; [reflexivity|].
  simpl. apply IH.
Qed.

Lemma emergency_defuzz :
  Ctrl.defuzz (light_duration the_setup)
    (accumulate_list the_rules emergency_strengths []) = Ok emergency_duration.
Proof. vm_compute. reflexivity. Qed.

(** Under these activations the rules answer the same duration whatever
    the other inputs are. *)
Lemma emergency_run (t q v e : Q) :
  map (strength (the_input t q v e)) the_rules = emergency_strengths ->
  infer t q v e = Ok emergency_duration.
Proof.
  intros H. apply infer_run_rules. unfold run_rules.
  rewrite compute_rules_ok by apply has_inputs_the_rules.
  rewrite consequents_the_rules, accumulate_all_list, H.
  cbn [bind mapM]. rewrite emergency_defuzz. reflexivity.
Qed.

(** * The emergency variable above its threshold *)

Lemma search_ge (x : Q) (xp : list Q) (i : nat) :
  (i < length xp)%nat -> (forall k, (k <= i)%nat -> nth k xp 0 <= x) ->
  (i < Np.search x xp)%nat.
Proof.
  revert i. induction xp as [|p xp IH]; simpl; intros i Hi H; [lia|].
  assert (Hp : Qle_bool p x = true) by (apply Qle_bool_iff, (H O); lia).
  rewrite Hp. destruct i as [|i]; [lia|].
  apply -> Nat.succ_lt_mono. apply IH; [lia|].
  intros k Hk. apply (H (S k)). lia.
Qed.

Lemma emergency_degrees (t q v e : Q) :
  9 # 10 <= e ->
  degree (the_input t q v e) e_is == 1 /\ degree (the_input t q v e) e_is_not == 0.
Proof.
  intros He.
  unfold e_is, e_is_not. rewrite !degree_emergency.
  set (u := universe (emergency the_setup)).
  set (x := clip (emergency the_setup) e).
  assert (Hx : 9 # 10 <= x /\ x <= 1).
  { unfold x, clip. rewrite Qred_correct.
    change (Np.amax (universe (emergency the_setup))) with 1.
    change (Np.amin (universe (emergency the_setup))) with 0.
    destruct (fmin_spec e 1) as [[? ->]|[? ->]];
      match goal with |- context [Np.fmax ?a 0] =>
        destruct (fmax_spec a 0) as [[? ->]|[? ->]] end; lra. }
  assert (Hs : (9 < Np.search x u)%nat).
  { apply search_ge; [vm_compute; lia|].
    intros k Hk.
    assert (Hk' : nth k u 0 <= 9 # 10).
    { do 10 (destruct k as [|k]; [vm_compute; discriminate|]). lia. }
    lra. }
  assert (Hne : u <> []) by discriminate.
  assert (Hgen : forall m, nth 9 m 0 = nth 10 m 0 -> length m = 11%nat ->
             Fuzz.interp_membership u m x == nth 10 m 0).
  { intros m Hm Hlen. unfold Fuzz.interp_membership.
    destruct (interp_cases x u m 0 0 Hne)
      as [[H _]|[[H _]|(j & Hj & Hjl & Hle & [[Hlast ->]|(Hnl & Hlt & ->)])]].
    - change (hd 0 u) with 0 in H. lra.
    - change (last u 0) with 1 in H. lra.
    - change (length u) with 11%nat in Hlast.
      injection Hlast as ->. reflexivity.
    - change (length u) with 11%nat in Hnl.
      assert (j = 9%nat) by lia. subst j.
      rewrite H, Hm.
      setoid_replace (nth 10 m 0 - nth 10 m 0) with 0 by ring. ring. }
  split.
  - rewrite Hgen; reflexivity.
  - rewrite Hgen; reflexivity.
Qed.

(** * The claims about the inference *)


Lemma perform_simulation_after (h : list (Q * Q * Q * Q)) (t q v e : Q) :
  fst (perform_simulation (after_calls tlcs0 h) t q v e) = infer t q v e.
Proof.
  apply perform_simulation_infer, wf_after_calls, wf_tlcs0.
Qed.




(** C2.  For every valid crisp input, and after any earlier calls,
    [perform_simulation] returns a duration within the declared bounds
    [[0, 22)] of the consequent. *)
Theorem light_duration_within_bounds (h : list (Q * Q * Q * Q)) (t q v e : Q) :
  0 <= t < 24 -> 0 <= q <= 40 -> 0 <= v <= 100 -> 0 <= e <= 1 ->
  exists d, fst (perform_simulation (after_calls tlcs0 h) t q v e) = Ok d /\
            first LIGHT_RANGE <= d /\ d < final LIGHT_RANGE.
Proof.
  intros _ _ _ _.
  destruct (infer_total t q v e) as (d & Hd & [H0 H1]).
  exists d. rewrite perform_simulation_after. split; [exact Hd|].
  change (first LIGHT_RANGE) with (inject_Z 0).
  change (final LIGHT_RANGE) with (inject_Z 22).
  unfold inject_Z. split; lra.
Qed.

Lemma light_duration_within_bounds_witness :
  exists d, fst (perform_simulation (after_calls tlcs0 [(5, 15, 90, 0)]) 10 30 60 0) = Ok d /\
            first LIGHT_RANGE <= d /\ d < final LIGHT_RANGE.
Proof.
  apply (light_duration_within_bounds [(5, 15, 90, 0)] 10 30 60 0); lra.
Defined.

(** C5.  With an emergency of 1, for every valid time of day, queue and
    visibility, only the first rule fires (fully), and the duration is the
    same number, 91/75: below the centre 3.5 of the second level, and more
    "extremely low" than anything else. *)
Theorem emergency_dominance (h : list (Q * Q * Q * Q)) (t q v : Q) :
  0 <= t < 24 -> 0 <= q <= 40 -> 0 <= v <= 100 ->
  fst (perform_simulation (after_calls tlcs0 h) t q v 1) = Ok emergency_duration /\
  map (strength (the_input t q v 1)) the_rules = emergency_strengths /\
  0 <= emergency_duration < 7 # 2 /\
  (forall level, In level (tl LIGHT_LEVELS) ->
     light_degree level emergency_duration
     < light_degree "extremely low" emergency_duration).
Proof.
  intros _ _ _.
  assert (Hs : map (strength (the_input t q v 1)) the_rules = emergency_strengths).
  { destruct (emergency_degrees t q v 1) as [H1 H0]; [lra|].
    apply strengths_emergency; assumption. }
  split; [|split; [exact Hs|split]].
  - rewrite perform_simulation_after. apply emergency_run, Hs.
  - unfold emergency_duration. lra.
  - intros level [<-|[<-|[<-|[<-|[<-|[<-|[]]]]]]]; vm_compute; reflexivity.
Qed.

Lemma emergency_dominance_witness :
  fst (perform_simulation (after_calls tlcs0 []) 10 30 60 1) = Ok emergency_duration.
Proof.
  apply (emergency_dominance [] 10 30 60); lra.
Defined.





(** C9.  The duration [perform_simulation] returns depends on its four
    arguments only: it is what one run of the rules answers on them, whatever
    calls were made before on the same object. *)
Theorem perform_simulation_deterministic (h1 h2 : list (Q * Q * Q * Q)) (t q v e : Q) :
  fst (perform_simulation (after_calls tlcs0 h1) t q v e)
  = fst (perform_simulation (after_calls tlcs0 h2) t q v e) /\
  fst (perform_simulation (after_calls tlcs0 h1) t q v e) = infer t q v e.
Proof.
  rewrite !perform_simulation_after. split; reflexivity.
Qed.

(** C10.  The two sets of the emergency variable are crisp and
    complementary: over the eleven sample points each degree is 0 or 1, the
    two add up to 1, and "is" is 1 exactly on the last two points, 0.9
    and 1. *)
Theorem emergency_sets_crisp_partition :
  let u := universe (emergency the_setup) in
  let yes := mf_of (emergency the_setup) "is" in
  let no := mf_of (emergency the_setup) "is_not" in
  Setup_init = Ok the_setup /\
  length u = 11%nat /\ length yes = length u /\ length no = length u /\
  forall i, (i < length u)%nat ->
    nth i yes 0 + nth i no 0 == 1 /\
    (nth i yes 0 = 0 \/ nth i yes 0 = 1) /\
    (nth i no 0 = 0 \/ nth i no 0 = 1) /\
    (nth i yes 0 = 1 <-> (length u - 2 <= i)%nat) /\
    (nth i yes 0 = 1 <-> nth i u 0 = 9 # 10 \/ nth i u 0 = 1).
Proof.
  cbv zeta. split; [exact Setup_init_ok|].
  split; [reflexivity|]. split; [reflexivity|]. split; [reflexivity|].
  intros i Hi. change (length (universe (emergency the_setup))) with 11%nat in *.
  do 11 (destruct i as [|i];
         [vm_compute; repeat split; auto; try discriminate; try lia;
          try (intros [H|H]; discriminate) |]).
  lia.
Qed.

Lemma first_maximum3 (h m l : Q) :
  let ta := [h; m; l] in
  let k := index (py_max ta) ta in
  (k < 3)%nat /\
  (forall j, (j < 3)%nat -> nth j ta 0 <= nth k ta 0) /\
  (forall j, (j < k)%nat -> nth j ta 0 < nth k ta 0).
Proof.
  cbv zeta. unfold py_max, index. cbn [fold_left].
  destruct (Qltb h m) eqn:E1; [apply Qltb_lt in E1|apply Qltb_ge in E1].
  - destruct (Qltb m l) eqn:E2; [apply Qltb_lt in E2|apply Qltb_ge in E2].
    + destruct (Qeqb h l) eqn:E3; [apply Qeqb_eq in E3; lra|].
      destruct (Qeqb m l) eqn:E4; [apply Qeqb_eq in E4; lra|].
      destruct (Qeqb l l) eqn:E5;
        [|apply Qeqb_neq in E5; exfalso; apply E5; reflexivity].
      repeat split; [lia| |]; intros [|[|[|j]]] Hj; simpl; try lia; lra.
    + destruct (Qeqb h m) eqn:E3; [apply Qeqb_eq in E3; lra|].
      destruct (Qeqb m m) eqn:E5;
        [|apply Qeqb_neq in E5; exfalso; apply E5; reflexivity].
      repeat split; [lia| |]; intros [|[|[|j]]] Hj; simpl; try lia; lra.
  - destruct (Qltb h l) eqn:E2; [apply Qltb_lt in E2|apply Qltb_ge in E2].
    + destruct (Qeqb h l) eqn:E3; [apply Qeqb_eq in E3; lra|].
      destruct (Qeqb m l) eqn:E4; [apply Qeqb_eq in E4; lra|].
      destruct (Qeqb l l) eqn:E5;
        [|apply Qeqb_neq in E5; exfalso; apply E5; reflexivity].
      repeat split; [lia| |]; intros [|[|[|j]]] Hj; simpl; try lia; lra.
    + destruct (Qeqb h h) eqn:E5;
        [|apply Qeqb_neq in E5; exfalso; apply E5; reflexivity].
      repeat split; [lia| |]; intros [|[|[|j]]] Hj; simpl; try lia; lra.
Qed.

(** C4.  [assess_time] compares the degrees in the order high, medium,
    low and returns the position of the first one that reaches the greatest
    degree: every degree is at most the returned one, and every degree
    before it is strictly smaller.  So a tie goes to high, then to medium. *)
Theorem assess_time_first_maximum (value : Q) :
  let ta := time_assessment the_setup value in
  let k := assess_time the_setup value in
  length ta = 3%nat /\ (k < 3)%nat /\
  (forall j, (j < 3)%nat -> nth j ta 0 <= nth k ta 0) /\
  (forall j, (j < k)%nat -> nth j ta 0 < nth k ta 0) /\
  (nth 1 ta 0 <= nth 0 ta 0 -> nth 2 ta 0 <= nth 0 ta 0 -> k = 0%nat) /\
  (nth 0 ta 0 < nth 1 ta 0 -> nth 2 ta 0 <= nth 1 ta 0 -> k = 1%nat).
Proof.
  cbv zeta. unfold assess_time, time_assessment.
  set (h := Fuzz.interp_membership _ (mf_of _ "high") value).
  set (m := Fuzz.interp_membership _ (mf_of _ "medium") value).
  set (l := Fuzz.interp_membership _ (mf_of _ "low") value).
  destruct (first_maximum3 h m l) as (Hk & Hmax & Hfirst).
  split; [reflexivity|]. split; [exact Hk|]. split; [exact Hmax|].
  split; [exact Hfirst|].
  set (k := index (py_max [h; m; l]) [h; m; l]) in *.
  split.
  - intros H1 H2. destruct k as [|[|[|k]]]; [reflexivity| | |lia].
    + specialize (Hfirst 0%nat ltac:(lia)). simpl in *. lra.
    + specialize (Hfirst 0%nat ltac:(lia)). simpl in *. lra.
  - intros H1 H2. destruct k as [|[|[|k]]]; [|reflexivity| |lia].
    + specialize (Hmax 1%nat ltac:(lia)). simpl in *. lra.
    + specialize (Hfirst 1%nat ltac:(lia)). simpl in *. lra.
Qed.

(** Ties of two and of three levels: at five o'clock medium and low tie
    and medium is returned; at seven high and medium tie and high is
    returned; at 24, outside the universe, all three degrees are zero and
    high is returned. *)
Example assess_time_ties :
  time_assessment the_setup 5 = [0; 1 # 2; 1 # 2] /\ assess_time the_setup 5 = 1%nat /\
  time_assessment the_setup 7 = [1 # 2; 1 # 2; 0] /\ assess_time the_setup 7 = 0%nat /\
  time_assessment the_setup 24 = [0; 0; 0] /\ assess_time the_setup 24 = 0%nat.
Proof. vm_compute. repeat split; reflexivity. Qed.

(** * The random parameters *)

Lemma randint_bounds (g : Random.generator) (a b : Z) :
  (a <= b)%Z -> (a <= fst (Random.randint g a b) <= b)%Z.
Proof.
  intros H. unfold Random.randint. cbn [fst].
  pose proof (Z.mod_pos_bound (Random.raw g (Random.pos g)) (b - a + 1)).
  lia.
Qed.

Lemma random_bounds (g : Random.generator) :
  0 <= fst (Random.random g) /\ fst (Random.random g) < 1.
Proof.
  unfold Random.random. cbn [fst]. rewrite Qred_correct.
  pose proof (Z.mod_pos_bound (Random.raw g (Random.pos g)) (2 ^ 53) ltac:(lia)) as H.
  unfold Qle, Qlt. cbn [Qnum Qden]. lia.
Qed.

Lemma round_half_even_bounds (x : Q) (lo hi : Z) :
  inject_Z lo <= x -> x <= inject_Z hi ->
  (lo <= round_half_even x <= hi)%Z.
Proof.
  intros Hlo Hhi. unfold round_half_even.
  pose proof (Qfloor_le x) as Hf.
  pose proof (Qlt_floor x) as Hf'.
  assert (H1 : (lo <= Qfloor x)%Z).
  { rewrite <- (Qfloor_Z lo). apply Qfloor_resp_le, Hlo. }
  assert (H2 : (Qfloor x <= hi)%Z).
  { rewrite <- (Qfloor_Z hi). apply Qfloor_resp_le, Hhi. }
  assert (H3 : 0 < x - inject_Z (Qfloor x) -> (Qfloor x + 1 <= hi)%Z).
  { intros Hr. assert (Hlt : inject_Z (Qfloor x) < inject_Z hi) by lra.
    rewrite <- Zlt_Qlt in Hlt. lia. }
  destruct (Qltb (x - inject_Z (Qfloor x)) (1 # 2)) eqn:E1; [lia|].
  apply Qltb_ge in E1.
  destruct (Qltb (1 # 2) (x - inject_Z (Qfloor x))); [|destruct (Z.even (Qfloor x))];
    try lia; split; try lia; apply H3; lra.
Qed.

Lemma round1_bounds (r : Q) : 0 <= r -> r < 1 -> 0 <= round1 r /\ round1 r <= 1.
Proof.
  intros H0 H1. unfold round1. rewrite Qred_correct.
  destruct (round_half_even_bounds (r * 10) 0 10) as [Ha Hb].
  - change (inject_Z 0) with 0. lra.
  - change (inject_Z 10) with 10. lra.
  - rewrite Zle_Qle in Ha, Hb.
    change (inject_Z 0) with 0 in Ha. change (inject_Z 10) with 10 in Hb.
    split.
    + apply Qle_shift_div_l; lra.
    + apply Qle_shift_div_r; lra.
Qed.

(** C8 at the draw 48.  [randint(0, 48)] includes 48, and the time of day
    is then 24: outside [[0, 24)] and beyond the last sample 23.5 of the
    universe.  There every degree is zero and [assess_time] answers 0
    (high), while at 23.5 it answers 2 (low) and the simulation object
    clips 24 to 23.5. *)
Lemma time_of_day_reaches_24 :
  let p := fst (RandomParameters.init {| Random.raw := fun _ => 48%Z; Random.pos := 0 |}) in
  RandomParameters.time_of_day p = 24 /\
  ~ RandomParameters.time_of_day p < 24 /\
  time_assessment the_setup (RandomParameters.time_of_day p) = [0; 0; 0] /\
  assess_time the_setup (RandomParameters.time_of_day p) = 0%nat /\
  assess_time the_setup (47 # 2) = 2%nat /\
  clip (traffic_during_day the_setup) (RandomParameters.time_of_day p) = 47 # 2.
Proof.
  vm_compute. repeat split; try reflexivity. discriminate.
Qed.

(** The ranges the parameter source keeps.  The parameters drawn at the
    start lie in: time of day a multiple of one half in [[0, 24]], both ends
    included; queues in [[0, 40]]; visibility in [[0, 100]]; emergency in
    [[0, 1]].  A resample of the visibility lands in [[0, 100]], a resample
    of the emergency in [[0, 1]], and neither touches the other
    parameters. *)
Lemma random_parameters_in_range (g : Random.generator) :
  let p := fst (RandomParameters.init g) in
  (0 <= RandomParameters.time_of_day p <= 24 /\
   exists n : Z, RandomParameters.time_of_day p == inject_Z n / 2) /\
  (0 <= RandomParameters.cars_queuing_x p <= 40)%Z /\
  (0 <= RandomParameters.cars_queuing_y p <= 40)%Z /\
  (0 <= RandomParameters.air_transparency p <= 100)%Z /\
  0 <= RandomParameters.emergency p <= 1 /\
  forall (p0 : RandomParameters.t) (g0 : Random.generator),
    let p1 := fst (RandomParameters.change_air_transparency p0 g0) in
    let p2 := fst (RandomParameters.change_emergency p0 g0) in
    (0 <= RandomParameters.air_transparency p1 <= 100)%Z /\
    RandomParameters.time_of_day p1 = RandomParameters.time_of_day p0 /\
    RandomParameters.cars_queuing_x p1 = RandomParameters.cars_queuing_x p0 /\
    RandomParameters.cars_queuing_y p1 = RandomParameters.cars_queuing_y p0 /\
    RandomParameters.emergency p1 = RandomParameters.emergency p0 /\
    0 <= RandomParameters.emergency p2 <= 1 /\
    RandomParameters.time_of_day p2 = RandomParameters.time_of_day p0 /\
    RandomParameters.cars_queuing_x p2 = RandomParameters.cars_queuing_x p0 /\
    RandomParameters.cars_queuing_y p2 = RandomParameters.cars_queuing_y p0 /\
    RandomParameters.air_transparency p2 = RandomParameters.air_transparency p0.
Proof.
  cbv zeta. unfold RandomParameters.init.
  change (range_min TIME_RANGE) with 0%Z. change (range_max TIME_RANGE * 2)%Z with 48%Z.
  change (range_min CARS_RANGE) with 0%Z. change (range_max CARS_RANGE) with 40%Z.
  change (range_min AIR_RANGE) with 0%Z. change (range_max AIR_RANGE) with 100%Z.
  pose proof (randint_bounds g 0 48 ltac:(lia)) as Ht.
  destruct (Random.randint g 0 48) as [n g1]. cbn [fst] in Ht.
  pose proof (randint_bounds g1 0 40 ltac:(lia)) as Hx.
  destruct (Random.randint g1 0 40) as [x g2]. cbn [fst] in Hx.
  pose proof (randint_bounds g2 0 40 ltac:(lia)) as Hy.
  destruct (Random.randint g2 0 40) as [y g3]. cbn [fst] in Hy.
  pose proof (randint_bounds g3 0 100 ltac:(lia)) as Ha.
  destruct (Random.randint g3 0 100) as [a g4]. cbn [fst] in Ha.
  pose proof (random_bounds g4) as Hr.
  destruct (Random.random g4) as [r g5]. cbn [fst] in Hr.
  cbn [fst RandomParameters.time_of_day RandomParameters.cars_queuing_x
       RandomParameters.cars_queuing_y RandomParameters.air_transparency
       RandomParameters.emergency].
  split.
  { split.
    - rewrite Qred_correct.
      destruct Ht as [Ht0 Ht1]. rewrite Zle_Qle in Ht0, Ht1.
      change (inject_Z 0) with 0 in Ht0. change (inject_Z 48) with 48 in Ht1.
      split; [apply Qle_shift_div_l|apply Qle_shift_div_r]; lra.
    - exists n. apply Qred_correct. }
  split; [exact Hx|]. split; [exact Hy|]. split; [exact Ha|].
  split; [apply round1_bounds; tauto|].
  intros p0 g0.
  unfold RandomParameters.change_air_transparency, RandomParameters.change_emergency.
  pose proof (randint_bounds g0 0 100 ltac:(lia)) as Ha'.
  destruct (Random.randint g0 0 100) as [a' g0'].
  pose proof (random_bounds g0) as Hr'.
  destruct (Random.random g0) as [r' g0''].
  cbn [fst RandomParameters.time_of_day RandomParameters.cars_queuing_x
       RandomParameters.cars_queuing_y RandomParameters.air_transparency
       RandomParameters.emergency] in *.
  repeat split; try reflexivity; try lia; apply round1_bounds; tauto.
Qed.

(** * The driver *)

Lemma round_half_even_nonneg (x : Q) : 0 <= x -> (0 <= round_half_even x)%Z.
Proof.
  intros H. unfold round_half_even.
  assert (H0 : (0 <= Qfloor x)%Z).
  { rewrite <- (Qfloor_Z 0). apply Qfloor_resp_le, H. }
  destruct (Qltb _ _); [lia|].
  destruct (Qltb _ _); [lia|]. destruct (Z.even _); lia.
Qed.

(** The call the driver makes always returns: a tenth of a second count
    that is not negative, and a control system that is still well-formed. *)
Lemma simulate_spec (a : Animation.t) (queue : Z) :
  wf (Animation.tlcs a) ->
  let p := Animation.parameters a in
  exists d a',
    fst (perform_simulation (Animation.tlcs a)
           (RandomParameters.time_of_day p) (inject_Z queue)
           (inject_Z (RandomParameters.air_transparency p))
           (RandomParameters.emergency p)) = Ok d /\
    0 <= d /\
    Animation.simulate a queue = Ok (round_half_even (d * 10), a') /\
    wf (Animation.tlcs a') /\
    Animation.marker a' = Animation.marker a /\
    Animation.parameters a' = Animation.parameters a /\
    Animation.increase_cars_rate a' = Animation.increase_cars_rate a /\
    Animation.plot a' = Animation.plot a /\
    Animation.switch_x_y a' = Animation.switch_x_y a /\
    Animation.rng a' = Animation.rng a.
Proof.
  intros Hwf p. unfold Animation.simulate. fold p.
  destruct (perform_simulation_infer (Animation.tlcs a)
              (RandomParameters.time_of_day p) (inject_Z queue)
              (inject_Z (RandomParameters.air_transparency p))
              (RandomParameters.emergency p) Hwf) as [Hr Hw].
  destruct (infer_total (RandomParameters.time_of_day p) (inject_Z queue)
              (inject_Z (RandomParameters.air_transparency p))
              (RandomParameters.emergency p)) as (d & Hd & [Hd0 _]).
  destruct (perform_simulation _ _ _ _ _) as [r system]. cbn [fst snd] in *.
  rewrite Hr, Hd. cbn [bind].
  exists d. eexists. split; [reflexivity|]. split; [exact Hd0|].
  split; [reflexivity|].
  cbn [Animation.marker Animation.plot Animation.switch_x_y Animation.parameters
       Animation.rng Animation.tlcs Animation.increase_cars_rate].
  split; [exact Hw|]. repeat split; reflexivity.
Qed.

Lemma active_other (a : Animation.t) :
  Animation.get_linewidth a (other (active a)) =
  if Animation.switch_x_y a then Animation.get_linewidth a Animation.y_plot
  else Animation.get_linewidth a Animation.x_plot.
Proof. unfold active. destruct (Animation.switch_x_y a); reflexivity. Qed.

(** C7.  At the frame equal to the marker the driver asks for the
    duration of the other direction's queue with the current time of day,
    visibility and emergency; adds the rounded tenfold of it to the marker,
    which therefore never decreases; makes the other direction the active
    one and gives it the green light; leaves both queues as they are; and
    redraws the emergency exactly when it was above the threshold 0.8. *)
Theorem switch_at_marker (a : Animation.t) (i : Z) :
  wf (Animation.tlcs a) -> i = Animation.marker a ->
  let p := Animation.parameters a in
  let queue := Animation.get_linewidth a (other (active a)) in
  exists d a',
    fst (perform_simulation (Animation.tlcs a)
           (RandomParameters.time_of_day p) (inject_Z queue)
           (inject_Z (RandomParameters.air_transparency p))
           (RandomParameters.emergency p)) = Ok d /\
    Animation.step_switch i a = Ok a' /\
    Animation.marker a' = (Animation.marker a + round_half_even (d * 10))%Z /\
    (Animation.marker a <= Animation.marker a')%Z /\
    active a' = other (active a) /\
    green (Animation.plot a') = Some (active a') /\
    (forall l, Animation.get_linewidth a' l = Animation.get_linewidth a l) /\
    (if Qltb Animation.EMERGENCY_THRESHOLD (RandomParameters.emergency p)
     then (Animation.parameters a', Animation.rng a')
          = RandomParameters.change_emergency p (Animation.rng a)
     else Animation.parameters a' = p /\ Animation.rng a' = Animation.rng a) /\
    wf (Animation.tlcs a').
Proof.
  intros Hwf Hi p queue.
  destruct (simulate_spec a queue Hwf)
    as (d & a1 & Hd & Hd0 & Hsim & Hw1 & Hm1 & Hp1 & Hr1 & Hpl1 & Hs1 & Hg1).
  exists d.
  unfold Animation.step_switch. rewrite Hi, Z.eqb_refl.
  unfold Animation.update_marker_and_switch.
  rewrite <- active_other. fold queue. rewrite Hsim. cbn [bind].
  cbn [Animation.marker Animation.plot Animation.switch_x_y Animation.parameters
       Animation.rng Animation.tlcs Animation.increase_cars_rate].
  rewrite ?Hp1, ?Hs1, ?Hm1, ?Hpl1, ?Hr1. fold p.
  assert (Hout : (0 <= round_half_even (d * 10))%Z)
    by (apply round_half_even_nonneg; lra).
  destruct (Qltb Animation.EMERGENCY_THRESHOLD (RandomParameters.emergency p)) eqn:E.
  - unfold Animation.update_emergency.
    cbn [Animation.parameters Animation.rng]. rewrite Hg1. fold p.
    destruct (RandomParameters.change_emergency p (Animation.rng a)) as [p' g'].
    eexists. split; [exact Hd|]. split; [reflexivity|].
    cbn [Animation.marker Animation.plot Animation.switch_x_y Animation.parameters
         Animation.rng Animation.tlcs].
    split; [reflexivity|]. split; [lia|].
    split; [unfold active; cbn; destruct (Animation.switch_x_y a); reflexivity|].
    split; [unfold active; cbn; destruct (Animation.switch_x_y a); reflexivity|].
    split; [intros l; destruct l; cbn; destruct (Animation.switch_x_y a); reflexivity|].
    split; [reflexivity|exact Hw1].
  - eexists. split; [exact Hd|]. split; [reflexivity|].
    cbn [Animation.marker Animation.plot Animation.switch_x_y Animation.parameters
         Animation.rng Animation.tlcs].
    split; [reflexivity|]. split; [lia|].
    split; [unfold active; cbn; destruct (Animation.switch_x_y a); reflexivity|].
    split; [unfold active; cbn; destruct (Animation.switch_x_y a); reflexivity|].
    split; [intros l; destruct l; cbn; destruct (Animation.switch_x_y a); reflexivity|].
    split; [split; [reflexivity|exact Hg1]|exact Hw1].
Qed.


Lemma switch_at_marker_witness :
  exists d a',
    fst (perform_simulation tlcs0 10 5 60 0) = Ok d /\
    Animation.step_switch 0 (Animation.init tlcs0 scenario) = Ok a' /\
    Animation.marker a' = (0 + round_half_even (d * 10))%Z.
Proof.
  destruct (switch_at_marker (Animation.init tlcs0 scenario) 0 wf_tlcs0 eq_refl)
    as (d & a' & H1 & H2 & H3 & _).
  exists d, a'. repeat split; assumption.
Defined.

(** The steps that change no light and no direction. *)
Lemma adjust_car_number_lights (a : Animation.t) (l : Animation.line) (change : Z) :
  green (Animation.plot (Animation.adjust_car_number a l change)) = green (Animation.plot a) /\
  active (Animation.adjust_car_number a l change) = active a.
Proof. destruct l; split; reflexivity. Qed.

Lemma step_increase_lights (i : Z) (a : Animation.t) :
  green (Animation.plot (Animation.step_increase i a)) = green (Animation.plot a) /\
  active (Animation.step_increase i a) = active a.
Proof.
  unfold Animation.step_increase.
  destruct (_ =? 0)%Z; split; reflexivity.
Qed.

Lemma step_decrease_lights (i : Z) (a : Animation.t) :
  green (Animation.plot (Animation.step_decrease i a)) = green (Animation.plot a) /\
  active (Animation.step_decrease i a) = active a.
Proof.
  unfold Animation.step_decrease.
  destruct (_ =? 0)%Z; [|split; reflexivity].
  destruct (Animation.switch_x_y a) eqn:E; split; try reflexivity;
    unfold active; cbn; rewrite E; reflexivity.
Qed.

Lemma step_parameters_lights (i : Z) (a : Animation.t) :
  green (Animation.plot (Animation.step_parameters i a)) = green (Animation.plot a) /\
  active (Animation.step_parameters i a) = active a.
Proof.
  unfold Animation.step_parameters.
  destruct (_ =? 0)%Z; [|split; reflexivity].
  unfold Animation.update_emergency, Animation.update_air_transparency.
  destruct (RandomParameters.change_air_transparency _ _) as [p1 g1].
  cbn [Animation.parameters Animation.rng].
  destruct (RandomParameters.change_emergency _ _) as [p2 g2].
  split; reflexivity.
Qed.

Lemma initialize_simulation_spec (a : Animation.t) :
  wf (Animation.tlcs a) ->
  exists a', Animation.initialize_simulation a = Ok a' /\
             wf (Animation.tlcs a') /\
             green (Animation.plot a') = Some (active a') /\
             active a' = active a.
Proof.
  intros Hwf. unfold Animation.initialize_simulation.
  match goal with
  | |- context [Animation.simulate ?s ?q] =>
      destruct (simulate_spec s q Hwf)
        as (d & a1 & _ & _ & Hsim & Hw1 & _ & _ & _ & _ & Hs1 & _);
      rewrite Hsim
  end.
  cbn [bind]. eexists. split; [reflexivity|].
  cbn [Animation.tlcs Animation.plot Animation.switch_x_y] in *.
  split; [exact Hw1|].
  unfold active. cbn [Animation.switch_x_y]. rewrite Hs1.
  destruct (Animation.switch_x_y a); split; reflexivity.
Qed.

(** A frame that may switch keeps the control system well-formed and the
    green light on the active direction. *)
Lemma step_switch_keeps (a : Animation.t) (i : Z) :
  wf (Animation.tlcs a) -> green (Animation.plot a) = Some (active a) ->
  exists a', Animation.step_switch i a = Ok a' /\
             wf (Animation.tlcs a') /\
             green (Animation.plot a') = Some (active a').
Proof.
  intros Hwf Hg. unfold Animation.step_switch.
  destruct (i =? Animation.marker a)%Z; [|exists a; auto].
  unfold Animation.update_marker_and_switch.
  match goal with
  | |- context [Animation.simulate a ?q] =>
      destruct (simulate_spec a q Hwf)
        as (d & a1 & _ & _ & Hsim & Hw1 & _ & _ & _ & _ & Hs1 & _);
      rewrite Hsim
  end.
  cbn [bind]. rewrite Hs1.
  destruct (Qltb _ _).
  - unfold Animation.update_emergency.
    destruct (RandomParameters.change_emergency _ _) as [p' g'].
    eexists. split; [reflexivity|]. split; [exact Hw1|].
    unfold active. cbn. destruct (Animation.switch_x_y a); reflexivity.
  - eexists. split; [reflexivity|]. split; [exact Hw1|].
    unfold active. cbn. destruct (Animation.switch_x_y a); reflexivity.
Qed.

(** A frame never raises, keeps the control system well-formed, and from
    frame 0 on the green light is on the direction the driver takes for the
    active one. *)
Lemma update_spec (a : Animation.t) (i : Z) :
  wf (Animation.tlcs a) ->
  i = 0%Z \/ green (Animation.plot a) = Some (active a) ->
  exists a', Animation._update a i = Ok a' /\
             wf (Animation.tlcs a') /\
             green (Animation.plot a') = Some (active a').
Proof.
  intros Hwf Hl. unfold Animation._update.
  assert (H1 : exists a1, Animation.step_initialize i a = Ok a1 /\
                          wf (Animation.tlcs a1) /\
                          green (Animation.plot a1) = Some (active a1)).
  { unfold Animation.step_initialize.
    destruct (i =? 0)%Z eqn:E.
    - destruct (initialize_simulation_spec a Hwf) as (a1 & H & Hw & Hg & _).
      exists a1. auto.
    - exists a. apply Z.eqb_neq in E. destruct Hl as [Hl|Hl]; [contradiction|auto]. }
  destruct H1 as (a1 & -> & Hw1 & Hg1). cbn [bind].
  assert (H2 : exists a2, Animation.step_switch i a1 = Ok a2 /\
                          wf (Animation.tlcs a2) /\
                          green (Animation.plot a2) = Some (active a2)).
  { apply step_switch_keeps; assumption. }
  destruct H2 as (a2 & -> & Hw2 & Hg2). cbn [bind].
  eexists. split; [reflexivity|]. split.
  - unfold Animation.step_parameters, Animation.step_decrease, Animation.step_increase.
    unfold Animation.update_emergency, Animation.update_air_transparency.
    repeat match goal with
    | |- context [if ?b then _ else _] => destruct b
    | |- context [let '(_, _) := ?x in _] => destruct x
    end; cbn; try destruct (Animation.switch_x_y a2); exact Hw2.
  - destruct (step_parameters_lights i
                (Animation.step_decrease i (Animation.step_increase i a2))) as [-> ->].
    destruct (step_decrease_lights i (Animation.step_increase i a2)) as [-> ->].
    destruct (step_increase_lights i a2) as [-> ->].
    exact Hg2.
Qed.

(** The driver runs any number of frames from its start without raising. *)
Lemma frames_total (g : Random.generator) (n : nat) :
  exists a, frames (Animation.init tlcs0 g) 0 n = Ok a /\
            wf (Animation.tlcs a) /\
            (n = O \/ green (Animation.plot a) = Some (active a)).
Proof.
  assert (H : forall n a i,
             wf (Animation.tlcs a) ->
             i = 0%Z \/ green (Animation.plot a) = Some (active a) ->
             exists a', frames a i n = Ok a' /\ wf (Animation.tlcs a') /\
                        (n = O \/ green (Animation.plot a') = Some (active a'))).
  { clear. induction n as [|n IH]; intros a i Hw Hl.
    - exists a. simpl. auto.
    - destruct (update_spec a i Hw Hl) as (a1 & H1 & Hw1 & Hg1).
      destruct (IH a1 (i + 1)%Z Hw1 (or_intror Hg1)) as (a' & H' & Hw' & Hg').
      exists a'. simpl. rewrite H1. cbn [bind]. rewrite H'.
      split; [reflexivity|]. split; [exact Hw'|]. right.
      destruct Hg' as [->|Hg']; [|exact Hg'].
      simpl in H'. injection H' as <-. exact Hg1. }
  apply H; [|left; reflexivity].
  unfold Animation.init. destruct (RandomParameters.init g) as [p g'].
  apply wf_tlcs0.
Qed.

(** C3 as stated fails: in the scenario of the specification the x
    direction has the green light after frame 0, and at frame 5 it is the
    queue of x that goes from 30 to 29, while the queue of y, which waits at
    red, stays at 6. *)
Lemma decrease_takes_green_direction :
  match frames (Animation.init tlcs0 scenario) 0 5 with
  | Ok a =>
      match Animation._update a 5 with
      | Ok a' =>
          green (Animation.plot a) = Some Animation.x_plot /\
          Animation.marker a = 160%Z /\
          Animation.get_linewidth a Animation.x_plot = 30%Z /\
          Animation.get_linewidth a Animation.y_plot = 6%Z /\
          green (Animation.plot a') = Some Animation.x_plot /\
          Animation.get_linewidth a' Animation.x_plot = 29%Z /\
          Animation.get_linewidth a' Animation.y_plot = 6%Z
      | Raise _ => False
      end
  | Raise _ => False
  end.
Proof. vm_compute. repeat split; reflexivity. Qed.

(** C3, as the code has it.  At every frame that is a multiple of the
    decrease rate 5 the driver takes one car, down to zero, from the queue
    of the active direction, the one with the green light, and leaves the
    queue of the direction at red as it is; at any other frame this step
    changes nothing. *)
Theorem decrease_green_direction (a : Animation.t) (i : Z) (l : Animation.line) :
  green (Animation.plot a) = Some l -> active a = l ->
  let a' := Animation.step_decrease i a in
  ((i mod Animation.DECREASE_CARS_RATE = 0)%Z ->
   Animation.get_linewidth a' l = Z.max (Animation.get_linewidth a l - 1) 0 /\
   Animation.get_linewidth a' (other l) = Animation.get_linewidth a (other l)) /\
  ((i mod Animation.DECREASE_CARS_RATE <> 0)%Z -> a' = a) /\
  green (Animation.plot a') = Some l.
Proof.
  intros Hg Ha. cbv zeta.
  split; [|split].
  - intros Hi. unfold Animation.step_decrease.
    apply Z.eqb_eq in Hi. rewrite Hi.
    unfold active in Ha. destruct (Animation.switch_x_y a); subst l;
      split; reflexivity.
  - intros Hi. unfold Animation.step_decrease.
    apply Z.eqb_neq in Hi. rewrite Hi. reflexivity.
  - destruct (step_decrease_lights i a) as [-> _]. exact Hg.
Qed.

Lemma decrease_green_direction_witness :
  let a :=
    {| Animation.marker := 160; Animation.tlcs := tlcs0;
       Animation.parameters := fst (RandomParameters.init scenario);
       Animation.increase_cars_rate := 10;
       Animation.plot :=
         {| RoadJunction.x_linewidth := 30; RoadJunction.y_linewidth := 6;
            RoadJunction.x_scat := RoadJunction.lime;
            RoadJunction.y_scat := RoadJunction.red |};
       Animation.switch_x_y := true;
       Animation.rng := scenario |} in
  Animation.get_linewidth (Animation.step_decrease 5 a) Animation.x_plot = 29%Z /\
  Animation.get_linewidth (Animation.step_decrease 5 a) Animation.y_plot = 6%Z.
Proof.
  cbv zeta.
  match goal with
  | |- Animation.get_linewidth (Animation.step_decrease 5 ?a) _ = _ /\ _ =>
      exact (proj1 (decrease_green_direction a 5 Animation.x_plot eq_refl eq_refl) eq_refl)
  end.
Defined.

Lemma assess_time_first_maximum_witness :
  (assess_time the_setup 5 < 3)%nat /\
  nth 0 (time_assessment the_setup 5) 0 < nth (assess_time the_setup 5) (time_assessment the_setup 5) 0.
Proof.
  destruct (assess_time_first_maximum 5) as (_ & Hk & _ & Hfirst & _).
  split; [exact Hk|]. apply Hfirst. vm_compute. lia.
Defined.

Lemma emergency_sets_crisp_partition_witness :
  nth 9 (mf_of (emergency the_setup) "is") 0
  + nth 9 (mf_of (emergency the_setup) "is_not") 0 == 1.
Proof.
  destruct emergency_sets_crisp_partition as (_ & _ & _ & _ & H).
  apply (H 9%nat). vm_compute. lia.
Defined.

(** * Evaluations *)

(** The library model reproduces the tip of the documented example: the
    exact value is 80879/4075, which is 19.8476073619631901..., within
    3e-15 of the documented float. *)
Example tipping_documented_value :
  Tipping.tipping (13 # 2) (49 # 5) = Ok (80879 # 4075) /\
  19847607361963190 # 1000000000000000 < 80879 # 4075 /\
  80879 # 4075 < 19847607361963193 # 1000000000000000.
Proof. vm_compute. repeat split; reflexivity. Qed.

(** The three calls left as comments at the end of
    [TrafficLightControlSystem.py]: about 16.05, 1.21 and 10.25. *)
Example perform_simulation_samples :
  fst (perform_simulation tlcs0 10 30 60 0) = Ok (33456283 # 2084888) /\
  fst (perform_simulation tlcs0 10 30 60 1) = Ok (91 # 75) /\
  fst (perform_simulation tlcs0 5 15 90 0) = Ok (39487351407 # 3851726164).
Proof. vm_compute. repeat split; reflexivity. Qed.
